(** * lftp: a fluent builder of lftp command lines

    Shallow embedding of [src/lftp.js] (class [LFTP]) and the properties of
    its command-construction engine: option validation, the shell escaper,
    the connection preamble, the subcommand builders and the executor's
    command string.

    Conventions of the embedding:
    - a JavaScript string is the list of its UTF-16 code units ([jstring]);
    - a JavaScript value is a [Val]; numbers are the integers (the options
      of the builder are integer-typed), fractional numbers and NaN are not
      represented;
    - an options object is a finite map from property names to values;
      [hasOwnProperty] is definedness of the lookup and reading an absent
      property gives [VUndef];
    - a method of the class takes the instance ([this]) and returns a
      [Result]: the value returned together with the instance after the
      call, or the error thrown together with the instance at that point. *)

From Stdlib Require Import ZArith NArith Ascii String DecimalString.
From stdpp Require Import base option list strings gmap.

Open Scope Z_scope.

Set Warnings "-register-all".

(** ** JavaScript strings and values *)

Definition jstring := list N.

(** An ASCII literal of the source, as code units. *)
Definition lit (s : string) : jstring :=
  map N_of_ascii (list_ascii_of_string s).

Definition dquote : N := 34%N.
Definition squote : N := 39%N.
Definition backslash : N := 92%N.

Definition jstring_eqb (a b : jstring) : bool := bool_decide (a = b).

Inductive Val : Type :=
| VUndef
| VNull
| VBool (b : bool)
| VNum (z : Z)
| VStr (s : jstring)
| VArr (l : list Val)
| VObj (o : gmap string Val).

(** An options object, [{}] being the empty map. *)
Abbreviation Bag := (gmap string Val).

(** [opts.hasOwnProperty(k)] *)
Definition hasOwnProperty (opts : Bag) (k : string) : bool :=
  bool_decide (is_Some (opts !! k)).

(** [opts.k] *)
Definition prop (opts : Bag) (k : string) : Val :=
  default VUndef (opts !! k).

(** ToBoolean *)
Definition truthy (v : Val) : bool :=
  match v with
  | VUndef | VNull => false
  | VBool b => b
  | VNum z => negb (z =? 0)
  | VStr s => match s with [] => false | _ => true end
  | VArr _ | VObj _ => true
  end.

(** [a || b] *)
Definition or_else (a b : Val) : Val := if truthy a then a else b.

(** [typeDetect(v) === 'string'] *)
Definition is_string (v : Val) : bool :=
  match v with VStr _ => true | _ => false end.

(** Number::toString for an integer (below 10^21, where JavaScript still
    prints plain decimal digits). *)
Definition num_to_string (z : Z) : jstring :=
  lit (NilZero.string_of_int (Z.to_int z)).

(** ToString, as a template literal applies it. An array prints its
    elements separated by commas, [null] and [undefined] elements as the
    empty string. *)
Fixpoint toString (v : Val) : jstring :=
  match v with
  | VUndef => lit "undefined"
  | VNull => lit "null"
  | VBool true => lit "true"
  | VBool false => lit "false"
  | VNum z => num_to_string z
  | VStr s => s
  | VArr l =>
      (fix elems (l : list Val) : jstring :=
         match l with
         | [] => []
         | x :: r =>
             let e := match x with
                      | VUndef | VNull => []
                      | _ => toString x
                      end in
             match r with
             | [] => e
             | _ => e ++ lit "," ++ elems r
             end
         end) l
  | VObj _ => lit "[object Object]"
  end.

(** The string an element contributes to [Array.prototype.join]. *)
Definition join_elem (v : Val) : jstring :=
  match v with
  | VUndef | VNull => []
  | _ => toString v
  end.

(** [l.join(sep)] *)
Fixpoint join (sep : jstring) (l : list Val) : jstring :=
  match l with
  | [] => []
  | x :: r =>
      match r with
      | [] => join_elem x
      | _ => join_elem x ++ sep ++ join sep r
      end
  end.

(** [cmd.push(x)] on a local array. *)
Definition push {A} (cmd : list A) (x : A) : list A := cmd ++ [x].

(** ** Shell escaper *)

(** The characters [\s] matches in a JavaScript regular expression:
    the WhiteSpace and LineTerminator code points of ECMAScript (tab, line
    feed, vertical tab, form feed, carriage return, space, no-break space,
    the Unicode space separators, line and paragraph separator, and the
    byte order mark). *)
Definition is_js_space (c : N) : bool :=
  ((9 <=? c) && (c <=? 13) || (c =? 32) || (c =? 160) || (c =? 5760)
   || (8192 <=? c) && (c <=? 8202) || (c =? 8232) || (c =? 8233)
   || (c =? 8239) || (c =? 8287) || (c =? 12288) || (c =? 65279))%N.

(** The character class of the escaper's regular expression:
    double quote, [\s], single quote, dollar, backtick, brackets and
    backslash. *)
Definition shell_class (c : N) : bool :=
  ((c =? 34) || is_js_space c || (c =? 39) || (c =? 36) || (c =? 96)
   || (c =? 91) || (c =? 93) || (c =? 92))%N.

(** [s.replace(/(cls)/g, repl)] for a regular expression that is one
    capturing character class: the scan goes left to right, a matched code
    unit is replaced by [repl] of it (the capture [$1]) and the scan resumes
    after the match; the inserted text is not scanned again. *)
Fixpoint replace_class (cls : N -> bool) (repl : N -> jstring) (s : jstring)
  : jstring :=
  match s with
  | [] => []
  | c :: r =>
      (if cls c then repl c else [c]) ++ replace_class cls repl r
  end.

Definition escapeShell (cmd : Val) : Val :=
  if negb (is_string cmd) then VStr []
  else VStr (replace_class shell_class (fun c => [backslash; c]) (toString cmd)).

(** ** The builder instance *)

(** [this.options] *)
Record Options : Type := mkOptions {
  host : jstring;
  username : Val;
  password : Val;
  protocol : jstring;
  escape : Val;
  retries : Val;
  timeout : Val;
  retryInterval : Val;
  retryIntervalMultiplier : Val;
  autoConfirm : Val
}.

(** The instance: [this.options], [this.spawnOptions] and the command queue
    [this.cmds]. The queue holds strings only: [raw] is the one method that
    pushes to it. *)
Record LFTP : Type := mkLFTP {
  options : Options;
  spawnOptions : Bag;
  cmds : list jstring
}.

Definition set_cmds (this : LFTP) (q : list jstring) : LFTP :=
  {| options := options this; spawnOptions := spawnOptions this; cmds := q |}.

(** What a method call can throw: the [Error] that [fail] builds from its
    message, or a [TypeError] of the runtime. *)
Inductive Exn : Type :=
| Error (msg : jstring)
| TypeError.

(** What a method returns: the instance ([return this...]) or nothing. *)
Inductive Ret : Type :=
| RetThis
| RetUndefined.

Inductive Result : Type :=
| Returned (r : Ret) (this' : LFTP)
| Thrown (e : Exn) (this' : LFTP).

(** [fail(msg) { throw new Error(msg) }] *)
Definition fail (this : LFTP) (msg : jstring) : Result :=
  Thrown (Error msg) this.

(** ** Option validation and construction *)

(** [_includes(array, value)] for an array of string literals: membership
    by strict equality. *)
Definition _includes (array : list jstring) (value : Val) : bool :=
  match value with
  | VStr s => bool_decide (s ∈ array)
  | _ => false
  end.

Definition acceptableProtocols : list jstring :=
  [lit "ftp"; lit "sftp"; lit "ftps"].

(** [validateOptions(opts)]: [None] when no check fails, otherwise the
    message of the first [fail]. *)
Definition validateOptions (opts : Bag) : option jstring :=
  if negb (hasOwnProperty opts "host") then
    Some (lit "LFTP opts must include host")
  else if negb (hasOwnProperty opts "username") then
    Some (lit "LFTP opts must include username")
  else
    let requiresPassword := or_else (prop opts "requiresPassword") (VBool true) in
    if truthy requiresPassword && negb (hasOwnProperty opts "password") then
      Some (lit "LFTP opts must include password")
    else if hasOwnProperty opts "protocol"
            && negb (_includes acceptableProtocols (prop opts "protocol")) then
      Some (lit "LFTP opts.protocol must be ftp, sftp, or ftps.")
    else None.

(** [String.prototype.toLowerCase], on the letters A to Z. The constructor
    applies it to a validated protocol name or to the default, which are
    ASCII. *)
Definition toLowerCase (s : jstring) : jstring :=
  map (fun c => if ((65 <=? c) && (c <=? 90))%N then (c + 32)%N else c) s.

(** [opts.hasOwnProperty(k) ? opts.k : d] *)
Definition own_or (opts : Bag) (k : string) (d : Val) : Val :=
  if hasOwnProperty opts k then prop opts k else d.

(** [new LFTP(opts)]: the error thrown, or the instance. Calling
    [toLowerCase] on a value that is not a string is a [TypeError]. *)
Definition constructor (opts : Bag) : Exn + LFTP :=
  match validateOptions opts with
  | Some msg => inl (Error msg)
  | None =>
      match or_else (prop opts "protocol") (VStr (lit "sftp")) with
      | VStr p =>
          let protocol := toLowerCase p in
          let port := or_else (prop opts "port") (VNum 22) in
          let host := protocol ++ lit "://" ++ toString (prop opts "host")
                      ++ lit ":" ++ toString port in
          inr {| options :=
                   {| host := host;
                      username := prop opts "username";
                      password := or_else (prop opts "password") (VStr []);
                      protocol := protocol;
                      escape := own_or opts "escape" (VBool true);
                      retries := or_else (prop opts "retries") (VNum 1);
                      timeout := or_else (prop opts "timeout") (VNum 10);
                      retryInterval := or_else (prop opts "retryInterval") (VNum 5);
                      retryIntervalMultiplier :=
                        or_else (prop opts "retryIntervalMultiplier") (VNum 1);
                      autoConfirm := own_or opts "autoConfirm" (VBool false) |};
                 spawnOptions :=
                   if hasOwnProperty opts "cwd"
                   then {[ "cwd" := prop opts "cwd" ]} else ∅;
                 cmds := [] |}
      | _ => inl TypeError
      end
  end.

(** ** Escape mode, preamble and executor *)

Definition _escapeShell (this : LFTP) (cmd : Val) : Val :=
  if truthy (escape (options this)) then escapeShell cmd else cmd.

Definition baseCmd (this : LFTP) : list Val :=
  let o := options this in
  let cmd := [] in
  let cmd :=
    if jstring_eqb (protocol o) (lit "sftp") && truthy (autoConfirm o)
    then push cmd (VStr (lit "set sftp:auto-confirm yes")) else cmd in
  let cmd := push cmd (VStr (lit "set net:max-retries " ++ toString (retries o))) in
  let cmd := push cmd (VStr (lit "set net:timeout " ++ toString (timeout o))) in
  let cmd := push cmd (VStr (lit "set net:reconnect-interval-base "
                             ++ toString (retryInterval o))) in
  let cmd := push cmd (VStr (lit "set net:reconnect-interval-multiplier "
                             ++ toString (retryIntervalMultiplier o))) in
  let cmd := push cmd (VStr (lit "open -u " ++ [dquote]
                             ++ toString (_escapeShell this (username o))
                             ++ [dquote] ++ lit "," ++ [dquote]
                             ++ toString (_escapeShell this (password o))
                             ++ [dquote] ++ lit " " ++ [dquote]
                             ++ host o ++ [dquote])) in
  cmd.

(** [exec(extraCmds)] up to the call of [spawn]: the command string handed
    to [spawn('lftp', ['-c', cmdString], ...)] and the instance after the
    queue has been reset. The subprocess and the promise wrapped around it
    are outside the embedding. *)
Definition exec (this : LFTP) (extraCmds : Val) : jstring * LFTP :=
  let cmd := baseCmd this in
  let cmd :=
    match extraCmds with
    | VStr _ => push cmd extraCmds
    | VArr l => cmd ++ l
    | _ => cmd
    end in
  let cmd := cmd ++ map VStr (cmds this) in
  let this' := set_cmds this [] in
  let cmdString := join (lit ";") cmd in
  (cmdString, this').

Definition raw (this : LFTP) (cmd : Val) : Result :=
  match cmd with
  | VStr s => Returned RetThis (set_cmds this (push (cmds this) s))
  | _ => Returned RetThis this
  end.

(** ** Subcommand builders *)

(** [v === 'literal'] *)
Definition str_is (v : Val) (s : string) : bool :=
  match v with
  | VStr x => jstring_eqb x (lit s)
  | _ => false
  end.

(** [if (c) { cmd.push(x) }] *)
Definition push_if (c : bool) (cmd : list Val) (x : Val) : list Val :=
  if c then push cmd x else cmd.

(** [this.raw(cmd.join(' '))] *)
Definition raw_join (this : LFTP) (cmd : list Val) : Result :=
  raw this (VStr (join (lit " ") cmd)).

(** The outcome of a [switch] whose arms either extend [cmd] or [fail]. *)
Definition finish (this : LFTP) (r : jstring + list Val) : Result :=
  match r with
  | inl msg => fail this msg
  | inr cmd => raw_join this cmd
  end.

Definition alias (this : LFTP) (name value : Val) : Result :=
  if negb (truthy name) then raw this (VStr (lit "alias"))
  else if negb (truthy value) then
    raw this (VStr (lit "alias " ++ toString (_escapeShell this name)))
  else
    raw this (VStr (lit "alias " ++ toString (_escapeShell this name)
                    ++ lit " " ++ toString (_escapeShell this value))).

Definition at_ (this : LFTP) (time : Val) : Result :=
  if negb (truthy time) then fail this (lit "at() requires time argument")
  else raw this (VStr (lit "at " ++ toString (_escapeShell this time))).

Definition attach (this : LFTP) (pid : Val) : Result :=
  if negb (truthy pid) then fail this (lit "attach() requires pid argument")
  else raw this (VStr (lit "attach " ++ toString pid)).

Definition bookmark (this : LFTP) (subCmd : Val) (opts : Bag) : Result :=
  let cmd := [VStr (lit "bookmark")] in
  finish this
    (if str_is subCmd "add" then
       if hasOwnProperty opts "name" then
         let cmd := push cmd (VStr (lit "add "
                      ++ toString (_escapeShell this (prop opts "name")))) in
         inr (push_if (hasOwnProperty opts "loc") cmd
                (_escapeShell this (prop opts "loc")))
       else inl (lit "bookmark(add) opts argument requires name property")
     else if str_is subCmd "del" then
       if hasOwnProperty opts "name" then
         inr (push cmd (VStr (lit "del "
                ++ toString (_escapeShell this (prop opts "name")))))
       else inl (lit "bookmark(del) opts argument requires name property")
     else if str_is subCmd "edit" then inr (push cmd (VStr (lit "edit")))
     else if str_is subCmd "import" then
       if hasOwnProperty opts "type" then
         inr (push cmd (VStr (lit "import "
                ++ toString (_escapeShell this (prop opts "type")))))
       else inl (lit "bookmark(import) opts argument requires type property")
     else if str_is subCmd "list" then inr (push cmd (VStr (lit "list")))
     else inl (lit "bookmark() requires subCmd argument")).

Definition acceptableUnits : list jstring :=
  [lit "s"; lit "m"; lit "h"; lit "d"].

Definition cache (this : LFTP) (subCmd : Val) (opts : Bag) : Result :=
  let cmd := [VStr (lit "cache")] in
  finish this
    (if str_is subCmd "stat" || str_is subCmd "on" || str_is subCmd "off"
        || str_is subCmd "flush" then inr (push cmd subCmd)
     else if str_is subCmd "size" then
       if hasOwnProperty opts "lim" then
         inr (push cmd (VStr (lit "size " ++ toString (prop opts "lim"))))
       else inl (lit "cache(size) opts argument requires lim property")
     else if str_is subCmd "expire" then
       if hasOwnProperty opts "n" && hasOwnProperty opts "unit"
          && _includes acceptableUnits (prop opts "unit") then
         inr (push cmd (VStr (lit "expire " ++ toString (prop opts "n")
                              ++ toString (prop opts "unit"))))
       else inl (lit "cache(expire) opts argument requires n and unit properties")
     else inl (lit "cache() requires subCmd argument")).

Definition cat (this : LFTP) (path : Val) : Result :=
  if negb (truthy path) then fail this (lit "cat() requires path argument")
  else raw this (VStr (lit "cat " ++ toString (_escapeShell this path))).

Definition cd (this : LFTP) (dir : Val) : Result :=
  if negb (truthy dir) then fail this (lit "cd() requires dir argument")
  else raw this (VStr (lit "cd " ++ toString (_escapeShell this dir))).

(** [chmod(mode, ...files)] *)
Definition chmod (this : LFTP) (mode : Val) (files : list Val) : Result :=
  if negb (truthy mode) then fail this (lit "chmod() requires mode argument")
  else if bool_decide (length files = 0%nat) then
    fail this (lit "chmod() requires files argument(s)")
  else
    let filesStr := join (lit " ") (map (_escapeShell this) files) in
    raw this (VStr (lit "chmod " ++ toString mode ++ lit " " ++ filesStr)).

(** [close(all = false)] *)
Definition close (this : LFTP) (all : Val) : Result :=
  let all := match all with VUndef => VBool false | _ => all end in
  let cmd := [VStr (lit "close")] in
  let cmd := push_if (truthy all) cmd (VStr (lit "-a")) in
  raw_join this cmd.

Definition cls (this : LFTP) (opts : Bag) : Result :=
  let cmd := [VStr (lit "cls")] in
  let cmd := push_if (truthy (prop opts "singleColumn")) cmd (VStr (lit "-1")) in
  let cmd := push_if (truthy (prop opts "dirsFirst")) cmd (VStr (lit "-D")) in
  raw_join this cmd.

Definition debug (this : LFTP) (level : Val) (opts : Bag) : Result :=
  if negb (truthy level) then fail this (lit "debug() requires level argument")
  else if is_string level && negb (str_is level "off") then
    fail this (lit "debug() level argument must be a number or "
               ++ [dquote] ++ lit "off" ++ [dquote])
  else
    let cmd := [VStr (lit "debug")] in
    let cmd := push_if (hasOwnProperty opts "truncate") cmd (VStr (lit "-T")) in
    let cmd := push_if (hasOwnProperty opts "outputFile") cmd
                 (VStr (lit "-o "
                        ++ toString (_escapeShell this (prop opts "outputFile")))) in
    let cmd := push_if (hasOwnProperty opts "context") cmd (VStr (lit "-c")) in
    let cmd := push_if (hasOwnProperty opts "pid") cmd (VStr (lit "-p")) in
    let cmd := push_if (hasOwnProperty opts "timestamps") cmd (VStr (lit "-t")) in
    let cmd := push cmd level in
    raw_join this cmd.

Definition echo (this : LFTP) (str : Val) : Result :=
  raw this (VStr (lit "echo " ++ toString (_escapeShell this str))).

Definition edit (this : LFTP) (file : Val) (opts : Bag) : Result :=
  if negb (truthy file) then fail this (lit "edit() requires file argument")
  else if negb (is_string file) then
    fail this (lit "edit() file argument must be a string")
  else
    let cmd := [VStr (lit "edit")] in
    let cmd := push_if (truthy (prop opts "keepTempFile")) cmd (VStr (lit "-k")) in
    let cmd := push_if (hasOwnProperty opts "tempFileLocation") cmd
                 (VStr (lit "-o " ++ toString (prop opts "tempFileLocation"))) in
    let cmd := push cmd (_escapeShell this file) in
    raw_join this cmd.

Definition eval (this : LFTP) (args : Val) (opts : Bag) : Result :=
  if negb (truthy args) then fail this (lit "eval() requires args argument")
  else
    let cmd := [VStr (lit "eval")] in
    let cmd := push_if (hasOwnProperty opts "format") cmd
                 (VStr (lit "-f " ++ toString (prop opts "format"))) in
    let cmd := push cmd args in
    raw_join this cmd.

(** [exit] ends with the statement [this.raw(cmd.join(' '))], without
    [return]: the call evaluates to [undefined]. *)
Definition exit (this : LFTP) (subCmd : Val) (opts : Bag) : Result :=
  let cmd := [VStr (lit "exit")] in
  let switch : jstring + list Val :=
    if str_is subCmd "bg" then inr (push cmd (VStr (lit "bg")))
    else if str_is subCmd "top" then inr (push cmd (VStr (lit "top")))
    else if str_is subCmd "parent" then inr (push cmd (VStr (lit "parent")))
    else if str_is subCmd "kill" then inr (push cmd (VStr (lit "kill")))
    else inl (lit "exit() requires subCmd argument") in
  match switch with
  | inl msg => fail this msg
  | inr cmd =>
      let cmd := push_if (hasOwnProperty opts "code") cmd (prop opts "code") in
      match raw_join this cmd with
      | Returned _ this' => Returned RetUndefined this'
      | Thrown e this' => Thrown e this'
      end
  end.

Definition find (this : LFTP) (opts : Bag) : Result :=
  let cmd := [VStr (lit "find")] in
  let cmd := push_if (hasOwnProperty opts "maxScanDepth") cmd
               (VStr (lit "-d " ++ toString (prop opts "maxScanDepth"))) in
  let cmd := push_if (truthy (prop opts "longListing")) cmd (VStr (lit "-l")) in
  let cmd := push_if (hasOwnProperty opts "directory") cmd
               (_escapeShell this (prop opts "directory")) in
  raw_join this cmd.

Definition get (this : LFTP) (remotePath : Val) (opts : Bag) : Result :=
  if negb (truthy remotePath) then
    fail this (lit "get() require remotePath argument")
  else
    let cmd := [VStr (lit "get")] in
    let cmd := push_if (truthy (prop opts "continue")) cmd (VStr (lit "-c")) in
    let cmd := push_if (truthy (prop opts "deleteSrcOnSuccess")) cmd
                 (VStr (lit "-E")) in
    let cmd := push_if (truthy (prop opts "deleteTargetBefore")) cmd
                 (VStr (lit "-e")) in
    let cmd := push_if (truthy (prop opts "asciiMode")) cmd (VStr (lit "-a")) in
    let cmd := push_if (hasOwnProperty opts "base") cmd
                 (VStr (lit "-O "
                        ++ toString (_escapeShell this (prop opts "base")))) in
    let cmd := push cmd (_escapeShell this remotePath) in
    let cmd := push_if (hasOwnProperty opts "localPath") cmd
                 (VStr (lit "-o "
                        ++ toString (_escapeShell this (prop opts "localPath")))) in
    raw_join this cmd.

Definition get1 (this : LFTP) (remoteFile : Val) (opts : Bag) : Result :=
  if negb (truthy remoteFile) then
    fail this (lit "get1() requires remoteFile argument")
  else
    let cmd := [VStr (lit "get1")] in
    let cmd := push_if (hasOwnProperty opts "destFileName") cmd
                 (VStr (lit "-o "
                        ++ toString (_escapeShell this (prop opts "destFileName")))) in
    let cmd := push_if (truthy (prop opts "continue")) cmd (VStr (lit "-c")) in
    let cmd := push_if (truthy (prop opts "deleteSrcOnSuccess")) cmd
                 (VStr (lit "-E")) in
    let cmd := push_if (truthy (prop opts "asciiMode")) cmd (VStr (lit "-a")) in
    let cmd := push_if (hasOwnProperty opts "srcRegion") cmd
                 (VStr (lit "--source-region=" ++ toString (prop opts "srcRegion"))) in
    let cmd := push_if (hasOwnProperty opts "targetPos") cmd
                 (VStr (lit "--target-position=" ++ toString (prop opts "targetPos"))) in
    let cmd := push cmd (_escapeShell this remoteFile) in
    raw_join this cmd.

Definition glob (this : LFTP) (patterns : Val) (opts : Bag) : Result :=
  if negb (truthy patterns) then
    fail this (lit "glob() requires patterns argument")
  else
    let cmd := [VStr (lit "glob")] in
    let cmd := push_if (truthy (prop opts "plainFiles")) cmd (VStr (lit "-f")) in
    let cmd := push_if (truthy (prop opts "directories")) cmd (VStr (lit "-d")) in
    let cmd := push_if (truthy (prop opts "allTypes")) cmd (VStr (lit "-a")) in
    let existanceSpecified := false in
    let '(cmd, existanceSpecified) :=
      if truthy (prop opts "exist") then
        (push cmd (VStr (lit "--exist "
                         ++ toString (_escapeShell this patterns))), true)
      else (cmd, existanceSpecified) in
    let '(cmd, existanceSpecified) :=
      if truthy (prop opts "notExist") then
        (push cmd (VStr (lit "--not-exist "
                         ++ toString (_escapeShell this patterns))), true)
      else (cmd, existanceSpecified) in
    let commandSpecified := hasOwnProperty opts "command" in
    if existanceSpecified && commandSpecified then
      raw_join this (push cmd (VStr (lit "&& " ++ toString (prop opts "command"))))
    else if negb existanceSpecified && commandSpecified then
      let cmd := push cmd (prop opts "command") in
      let cmd := push cmd (_escapeShell this patterns) in
      raw_join this cmd
    else if negb existanceSpecified && negb commandSpecified then
      fail this (lit "glob() opts argument requires exist, notExist, and/or command properties")
    else raw_join this cmd.

Definition help (this : LFTP) (opts : Bag) : Result :=
  let cmd := [VStr (lit "help")] in
  let cmd := push_if (hasOwnProperty opts "command") cmd (prop opts "command") in
  raw_join this cmd.

Definition kill (this : LFTP) (opts : Bag) : Result :=
  let cmd := [VStr (lit "kill")] in
  let cmd := push_if (hasOwnProperty opts "jobNumber") cmd (prop opts "jobNumber") in
  raw_join this cmd.

Definition lcd (this : LFTP) (dir : Val) : Result :=
  raw this (VStr (lit "lcd " ++ toString (_escapeShell this dir))).

Definition ln (this : LFTP) (existingFile newLink : Val) (opts : Bag) : Result :=
  if negb (truthy existingFile) then
    fail this (lit "ln() requires existingFile argument")
  else if negb (truthy newLink) then
    fail this (lit "ln() requires newLink argument")
  else
    let cmd := [VStr (lit "ln")] in
    let cmd := push_if (truthy (prop opts "symbolic")) cmd (VStr (lit "-s")) in
    let cmd := push cmd (_escapeShell this existingFile) in
    let cmd := push cmd (_escapeShell this newLink) in
    raw_join this cmd.

Definition local (this : LFTP) (command : Val) : Result :=
  if negb (truthy command) then
    fail this (lit "local() requires command argument")
  else raw this (VStr (lit "local " ++ toString command)).

Definition lpwd (this : LFTP) : Result := raw this (VStr (lit "lpwd")).

Definition ls (this : LFTP) : Result := raw this (VStr (lit "ls")).

Definition pwd (this : LFTP) : Result := raw this (VStr (lit "pwd")).

Definition put (this : LFTP) (localPath : Val) (opts : Bag) : Result :=
  if negb (truthy localPath) then
    fail this (lit "put() requires localPath argument")
  else
    let remotePath := prop opts "remotePath" in
    if negb (truthy remotePath) then
      raw this (VStr (lit "put " ++ toString (_escapeShell this localPath)))
    else
      raw this (VStr (lit "put " ++ toString (_escapeShell this localPath)
                      ++ lit " -o " ++ toString (_escapeShell this remotePath))).

Definition mv (this : LFTP) (src dest : Val) : Result :=
  if negb (truthy src) then fail this (lit "mv() requires src argument")
  else if negb (truthy dest) then fail this (lit "mv() requires dest argument")
  else raw this (VStr (lit "mv " ++ toString (_escapeShell this src)
                       ++ lit " " ++ toString (_escapeShell this dest))).

(** [rm(...files)] *)
Definition rm (this : LFTP) (files : list Val) : Result :=
  if bool_decide (length files = 0%nat) then
    fail this (lit "rm() requires files argument(s)")
  else
    let filesStr := join (lit " ") (map (_escapeShell this) files) in
    raw this (VStr (lit "rm " ++ filesStr)).

(** [rmdir(...directories)] *)
Definition rmdir (this : LFTP) (directories : list Val) : Result :=
  if bool_decide (length directories = 0%nat) then
    fail this (lit "rmdir() requires directories argument(s)")
  else
    let directoriesStr := join (lit " ") (map (_escapeShell this) directories) in
    raw this (VStr (lit "rmdir " ++ directoriesStr)).

Definition mirror (this : LFTP) (remoteDir : Val) (opts : Bag) : Result :=
  let upload := prop opts "upload" in
  let localDir := prop opts "localDir" in
  if negb (truthy remoteDir) then
    fail this (lit "mirror() requires remoteDir argument")
  else if truthy upload && negb (truthy localDir) then
    fail this (lit "mirror(opts = {upload: true}) opts argument requires localDir property")
  else
    let cmd := if truthy (prop opts "queue")
               then [VStr (lit "queue mirror")] else [VStr (lit "mirror")] in
    let cmd := push_if (truthy upload) cmd (VStr (lit "--reverse")) in
    let cmd := push_if (hasOwnProperty opts "parallel") cmd
                 (VStr (lit "--parallel=" ++ toString (prop opts "parallel"))) in
    let cmd := push_if (hasOwnProperty opts "filter") cmd
                 (VStr (lit "--include=" ++ [squote]
                        ++ toString (prop opts "filter") ++ [squote])) in
    let cmd := push_if (hasOwnProperty opts "pget") cmd
                 (VStr (lit "--use-pget-n=" ++ toString (prop opts "pget"))) in
    let cmd := push_if (hasOwnProperty opts "options") cmd (prop opts "options") in
    let cmd :=
      if truthy upload then
        push cmd (VStr (toString (_escapeShell this localDir) ++ lit " "
                        ++ toString (_escapeShell this remoteDir)))
      else if negb (truthy localDir) then
        push cmd (VStr (toString (_escapeShell this remoteDir)))
      else
        push cmd (VStr (toString (_escapeShell this remoteDir) ++ lit " "
                        ++ toString (_escapeShell this localDir))) in
    raw_join this cmd.

Definition pget (this : LFTP) (remotePath : Val) (opts : Bag) : Result :=
  if negb (truthy remotePath) then
    fail this (lit "pget() requires remotePath argument")
  else
    let cmd := if truthy (prop opts "queue")
               then [VStr (lit "queue pget")] else [VStr (lit "pget")] in
    let n := or_else (prop opts "n") (VNum 4) in
    let cmd := push cmd (VStr (lit "-n " ++ toString n)) in
    let cmd := push cmd (VStr (toString (_escapeShell this remotePath))) in
    let localPath := prop opts "localPath" in
    let cmd := push_if (truthy localPath) cmd
                 (VStr (lit "-o " ++ toString (_escapeShell this localPath))) in
    raw_join this cmd.

(** ** [jobs], [command] and the table of builders *)

Section Subcommands.

(** lodash's [toNumber] parses a string by the numeric-literal grammar of
    the language; the parser is a parameter of the embedding ([None] is
    NaN). Only [jobs] reaches it, through [_inRange] and [_times]. *)
Variable parseNumber : jstring -> option Z.

(** lodash [toNumber] *)
Definition toNumber (v : Val) : option Z :=
  match v with
  | VNum z => Some z
  | VUndef => None
  | VNull => Some 0
  | VBool b => Some (if b then 1 else 0)
  | VStr s => parseNumber s
  | VArr _ | VObj _ => parseNumber (toString v)
  end.

(** lodash [inRange(number, start, end)] *)
Definition _inRange (number : Val) (start end_ : Z) : bool :=
  match toNumber number with
  | Some n => (Z.min start end_ <=? n) && (n <? Z.max start end_)
  | None => false
  end.

(** lodash [times(n, iteratee)] for a constant iteratee. *)
Definition _times (n : Val) (x : Val) : list Val :=
  let n := default 0 (toNumber n) in
  if (n <? 1) || (9007199254740991 <? n) then []
  else replicate (Z.to_nat (Z.min n 4294967295)) x.

Definition jobs (this : LFTP) (opts : Bag) : Result :=
  let cmd := [VStr (lit "jobs")] in
  let cmd :=
    push_if (hasOwnProperty opts "verbosity"
             && _inRange (prop opts "verbosity") 1 4) cmd
      (VStr (lit "-" ++ join [] (_times (prop opts "verbosity")
                                   (VStr (lit "v"))))) in
  let cmd := push_if (truthy (prop opts "notRecursive")) cmd (VStr (lit "-r")) in
  let cmd := push_if (hasOwnProperty opts "jobNumber") cmd
               (prop opts "jobNumber") in
  raw_join this cmd.

(** A call of a method that queues a command, with its arguments. An
    options argument that is left out is the empty object. *)
Inductive Call : Type :=
| Raw (cmd : Val)
| Alias (name value : Val)
| At (time : Val)
| Attach (pid : Val)
| Bookmark (subCmd : Val) (opts : Bag)
| Cache (subCmd : Val) (opts : Bag)
| Cat (path : Val)
| Cd (dir : Val)
| Chmod (mode : Val) (files : list Val)
| Close (all : Val)
| Cls (opts : Bag)
| Command (cmd args : Val)
| Debug (level : Val) (opts : Bag)
| Echo (str : Val)
| Edit (file : Val) (opts : Bag)
| Eval (args : Val) (opts : Bag)
| Exit (subCmd : Val) (opts : Bag)
| Find (opts : Bag)
| Get (remotePath : Val) (opts : Bag)
| Get1 (remoteFile : Val) (opts : Bag)
| Glob (patterns : Val) (opts : Bag)
| Help (opts : Bag)
| Jobs (opts : Bag)
| Kill (opts : Bag)
| Lcd (dir : Val)
| Ln (existingFile newLink : Val) (opts : Bag)
| Local (command : Val)
| Lpwd
| Ls
| Pwd
| Put (localPath : Val) (opts : Bag)
| Mv (src dest : Val)
| Rm (files : list Val)
| Rmdir (directories : list Val)
| Mirror (remoteDir : Val) (opts : Bag)
| Pget (remotePath : Val) (opts : Bag).

(** The options object a builder sees when its first argument is [args].
    The builders read named option properties only, which a primitive
    value or an array does not have. *)
Definition as_bag (args : Val) : Bag :=
  match args with
  | VObj o => o
  | _ => ∅
  end.

(** [this[cmd](args)]: the method named [cmd] called with the single
    argument [args]; the other parameters take their defaults. [None]
    when [cmd] is not the name of one of the methods above. *)
Definition method_call (cmd : jstring) (args : Val) : option Call :=
  let named s := jstring_eqb cmd (lit s) in
  if named "raw" then Some (Raw args)
  else if named "alias" then Some (Alias args VUndef)
  else if named "at" then Some (At args)
  else if named "attach" then Some (Attach args)
  else if named "bookmark" then Some (Bookmark args ∅)
  else if named "cache" then Some (Cache args ∅)
  else if named "cat" then Some (Cat args)
  else if named "cd" then Some (Cd args)
  else if named "chmod" then Some (Chmod args [])
  else if named "close" then Some (Close args)
  else if named "cls" then Some (Cls (as_bag args))
  else if named "command" then Some (Command args VUndef)
  else if named "debug" then Some (Debug args ∅)
  else if named "echo" then Some (Echo args)
  else if named "edit" then Some (Edit args ∅)
  else if named "eval" then Some (Eval args ∅)
  else if named "exit" then Some (Exit args ∅)
  else if named "find" then Some (Find (as_bag args))
  else if named "get" then Some (Get args ∅)
  else if named "get1" then Some (Get1 args ∅)
  else if named "glob" then Some (Glob args ∅)
  else if named "help" then Some (Help (as_bag args))
  else if named "jobs" then Some (Jobs (as_bag args))
  else if named "kill" then Some (Kill (as_bag args))
  else if named "lcd" then Some (Lcd args)
  else if named "ln" then Some (Ln args VUndef ∅)
  else if named "local" then Some (Local args)
  else if named "lpwd" then Some Lpwd
  else if named "ls" then Some Ls
  else if named "pwd" then Some Pwd
  else if named "put" then Some (Put args ∅)
  else if named "mv" then Some (Mv args VUndef)
  else if named "rm" then Some (Rm [args])
  else if named "rmdir" then Some (Rmdir [args])
  else if named "mirror" then Some (Mirror args ∅)
  else if named "pget" then Some (Pget args ∅)
  else None.

(** lodash [last(array)] *)
Definition _last (array : list jstring) : Val :=
  match last array with
  | Some s => VStr s
  | None => VUndef
  end.

(** [command(cmd, args)], given how [this[cmd](args)] evaluates. Reading
    [.cmds] off a call that returned [undefined] is a [TypeError]. *)
Definition command_with (invoke : LFTP -> jstring -> Val -> option Result)
    (this : LFTP) (cmd args : Val) : option Result :=
  if negb (truthy cmd) then
    Some (fail this (lit "command() requires cmd argument"))
  else if negb (truthy args) then
    Some (fail this (lit "command() requires args argument"))
  else
    match invoke this (toString cmd) args with
    | None => None
    | Some (Thrown e this') => Some (Thrown e this')
    | Some (Returned RetUndefined this') => Some (Thrown TypeError this')
    | Some (Returned RetThis this') =>
        let cmdString := _last (cmds this') in
        Some (raw this' (VStr (lit "command " ++ toString cmdString)))
    end.

(** The effect of a call, given how [command] evaluates [this[cmd](args)]. *)
Definition run_with (invoke : LFTP -> jstring -> Val -> option Result)
    (this : LFTP) (c : Call) : option Result :=
  match c with
  | Raw cmd => Some (raw this cmd)
  | Alias name value => Some (alias this name value)
  | At time => Some (at_ this time)
  | Attach pid => Some (attach this pid)
  | Bookmark subCmd opts => Some (bookmark this subCmd opts)
  | Cache subCmd opts => Some (cache this subCmd opts)
  | Cat path => Some (cat this path)
  | Cd dir => Some (cd this dir)
  | Chmod mode files => Some (chmod this mode files)
  | Close all => Some (close this all)
  | Cls opts => Some (cls this opts)
  | Command cmd args => command_with invoke this cmd args
  | Debug level opts => Some (debug this level opts)
  | Echo str => Some (echo this str)
  | Edit file opts => Some (edit this file opts)
  | Eval args opts => Some (eval this args opts)
  | Exit subCmd opts => Some (exit this subCmd opts)
  | Find opts => Some (find this opts)
  | Get remotePath opts => Some (get this remotePath opts)
  | Get1 remoteFile opts => Some (get1 this remoteFile opts)
  | Glob patterns opts => Some (glob this patterns opts)
  | Help opts => Some (help this opts)
  | Jobs opts => Some (jobs this opts)
  | Kill opts => Some (kill this opts)
  | Lcd dir => Some (lcd this dir)
  | Ln existingFile newLink opts => Some (ln this existingFile newLink opts)
  | Local command => Some (local this command)
  | Lpwd => Some (lpwd this)
  | Ls => Some (ls this)
  | Pwd => Some (pwd this)
  | Put localPath opts => Some (put this localPath opts)
  | Mv src dest => Some (mv this src dest)
  | Rm files => Some (rm this files)
  | Rmdir directories => Some (rmdir this directories)
  | Mirror remoteDir opts => Some (mirror this remoteDir opts)
  | Pget remotePath opts => Some (pget this remotePath opts)
  end.

(** A [command] reached through [this[cmd](args)] has no second argument
    and fails before it looks up a method, so one level of dispatch is
    all there is. *)
Definition invoke_inner (this : LFTP) (cmd : jstring) (args : Val)
  : option Result :=
  match method_call cmd args with
  | Some c => run_with (fun _ _ _ => None) this c
  | None => None
  end.

Definition command (this : LFTP) (cmd args : Val) : option Result :=
  command_with invoke_inner this cmd args.

Definition run (this : LFTP) (c : Call) : option Result :=
  run_with invoke_inner this c.

End Subcommands.

(** * Properties *)

(** ** The embedding on the inputs of the repository's tests *)

Definition testOpts : Bag :=
  {[ "host" := VStr (lit "host"); "username" := VStr (lit "username");
     "password" := VStr (lit "password"); "protocol" := VStr (lit "sftp");
     "port" := VNum 22; "retries" := VNum 1; "timeout" := VNum 10;
     "retryInterval" := VNum 5; "retryIntervalMultiplier" := VNum 1;
     "autoConfirm" := VBool true ]}.

Definition testInstance : LFTP :=
  match constructor testOpts with
  | inr this => this
  | inl _ => mkLFTP (mkOptions [] VUndef VUndef [] VUndef VUndef VUndef VUndef VUndef VUndef) ∅ []
  end.

(** The queue after a call. *)
Definition queued (r : Result) : list jstring :=
  match r with
  | Returned _ this' => cmds this'
  | Thrown _ this' => cmds this'
  end.

Example baseCmd_test :
  (match constructor testOpts with inr this => baseCmd this | _ => [] end)
  = map (fun s => VStr s)
      [ lit "set sftp:auto-confirm yes";
        lit "set net:max-retries 1";
        lit "set net:timeout 10";
        lit "set net:reconnect-interval-base 5";
        lit "set net:reconnect-interval-multiplier 1";
        lit "open -u " ++ [dquote] ++ lit "username" ++ [dquote] ++ lit ","
          ++ [dquote] ++ lit "password" ++ [dquote] ++ lit " " ++ [dquote]
          ++ lit "sftp://host:22" ++ [dquote] ].
Proof. vm_compute. reflexivity. Qed.

Example escapeShell_test :
  escapeShell (VStr (lit "[test] Test.mkv" ++ [34; 39; 36; 96; 92]%N))
  = VStr (lit "\[test\]\ Test.mkv\" ++ [34]%N ++ lit "\'\$\`\\").
Proof. vm_compute. reflexivity. Qed.

Example get_continue_test :
  queued (get testInstance (VStr (lit "remoteDir/file.ext"))
            {[ "continue" := VBool true ]})
  = [lit "get -c remoteDir/file.ext"].
Proof. vm_compute. reflexivity. Qed.

Example mirror_upload_test :
  queued (mirror testInstance (VStr (lit "remoteDir"))
            {[ "upload" := VBool true; "localDir" := VStr (lit "localDir") ]})
  = [lit "mirror --reverse localDir remoteDir"]
  /\ mirror testInstance (VStr (lit "remoteDir")) {[ "upload" := VBool true ]}
     = Thrown (Error (lit "mirror(opts = {upload: true}) opts argument requires localDir property"))
         testInstance.
Proof. vm_compute. split; reflexivity. Qed.

Example jobs_verbosity_test parseNumber :
  queued (jobs parseNumber testInstance {[ "verbosity" := VNum 2 ]})
  = [lit "jobs -vv"]
  /\ queued (jobs parseNumber testInstance {[ "verbosity" := VNum 4 ]})
     = [lit "jobs"]
  /\ queued (jobs parseNumber testInstance {[ "verbosity" := VNum 0 ]})
     = [lit "jobs"].
Proof. vm_compute. repeat split; reflexivity. Qed.

Example glob_test :
  queued (glob testInstance (VStr (lit "*"))
            {[ "command" := VStr (lit "echo"); "plainFiles" := VBool true ]})
  = [lit "glob -f echo *"]
  /\ queued (glob testInstance (VStr (lit "*"))
               {[ "command" := VStr (lit "echo"); "exist" := VBool true ]})
     = [lit "glob --exist * && echo"]
  /\ glob testInstance (VStr (lit "*")) ∅
     = Thrown (Error (lit "glob() opts argument requires exist, notExist, and/or command properties"))
         testInstance.
Proof. vm_compute. repeat split; reflexivity. Qed.

Example bookmark_cache_exit_test :
  queued (bookmark testInstance (VStr (lit "add"))
            {[ "name" := VStr (lit "name"); "loc" := VStr (lit "loc") ]})
  = [lit "bookmark add name loc"]
  /\ queued (cache testInstance (VStr (lit "expire"))
               {[ "n" := VNum 1; "unit" := VStr (lit "s") ]})
     = [lit "cache expire 1s"]
  /\ queued (exit testInstance (VStr (lit "kill")) {[ "code" := VNum 9 ]})
     = [lit "exit kill 9"]
  /\ queued (pget testInstance (VStr (lit "remote path")) ∅)
     = [lit "pget -n 4 remote\ path"].
Proof. vm_compute. repeat split; reflexivity. Qed.

(** ** Basic facts about the JavaScript primitives *)

Lemma hasOwnProperty_Some (opts : Bag) (k : string) (v : Val) :
  opts !! k = Some v -> hasOwnProperty opts k = true.
Proof. intros H. unfold hasOwnProperty. rewrite H. reflexivity. Qed.

Lemma hasOwnProperty_None (opts : Bag) (k : string) :
  opts !! k = None -> hasOwnProperty opts k = false.
Proof. intros H. unfold hasOwnProperty. rewrite H. reflexivity. Qed.

Lemma hasOwnProperty_true (opts : Bag) (k : string) :
  hasOwnProperty opts k = true -> exists v, opts !! k = Some v /\ prop opts k = v.
Proof.
  unfold hasOwnProperty, prop. destruct (opts !! k) as [v|] eqn:E.
  - intros _. exists v. split; reflexivity.
  - intros H. apply bool_decide_eq_true in H. destruct H as [x Hx]. discriminate.
Qed.

Lemma prop_None (opts : Bag) (k : string) :
  opts !! k = None -> prop opts k = VUndef.
Proof. intros H. unfold prop. rewrite H. reflexivity. Qed.

Lemma or_else_truthy (a b : Val) : truthy b = true -> truthy (or_else a b) = true.
Proof. intros Hb. unfold or_else. destruct (truthy a) eqn:E; assumption. Qed.

Lemma toString_VArr (l : list Val) : toString (VArr l) = join (lit ",") l.
Proof.
  induction l as [|x r IH]; [reflexivity|].
  destruct r as [|y r']; [destruct x; reflexivity|].
  change (toString (VArr (x :: y :: r')))
    with (join_elem x ++ lit "," ++ toString (VArr (y :: r'))).
  rewrite IH. reflexivity.
Qed.

Lemma join_cons (sep : jstring) (x y : Val) (l : list Val) :
  join sep (x :: y :: l) = join_elem x ++ sep ++ join sep (y :: l).
Proof. reflexivity. Qed.

(** Joining two non-empty arrays: the separator goes between the parts. *)
Lemma join_app (sep : jstring) (l1 l2 : list Val) :
  l1 <> [] -> l2 <> [] ->
  join sep (l1 ++ l2) = join sep l1 ++ sep ++ join sep l2.
Proof.
  intros H1 H2. induction l1 as [|x r IH]; [congruence|].
  destruct r as [|y r'].
  - destruct l2 as [|z l2']; [congruence|]. reflexivity.
  - change ((x :: y :: r') ++ l2) with (x :: y :: (r' ++ l2)).
    rewrite !join_cons.
    change (y :: r' ++ l2) with ((y :: r') ++ l2).
    rewrite IH by discriminate.
    rewrite <- !app_assoc. reflexivity.
Qed.

Lemma join_app_nil_r (sep : jstring) (l : list Val) : join sep (l ++ []) = join sep l.
Proof. rewrite app_nil_r. reflexivity. Qed.

(** ** Option validation *)

(** Without a [password] property validation fails, whatever
    [requiresPassword] is: [opts.requiresPassword || true] is always
    truthy. *)
Lemma validateOptions_requires_password (opts : Bag) :
  hasOwnProperty opts "host" = true ->
  hasOwnProperty opts "username" = true ->
  hasOwnProperty opts "password" = false ->
  validateOptions opts = Some (lit "LFTP opts must include password").
Proof.
  intros Hh Hu Hp. unfold validateOptions. rewrite Hh, Hu, Hp. simpl.
  rewrite or_else_truthy by reflexivity. reflexivity.
Qed.

Definition optsNoPassword : Bag :=
  {[ "host" := VStr (lit "host"); "username" := VStr (lit "username");
     "requiresPassword" := VBool false ]}.

(** C1 (evaluation of the code): the options
    [{host: 'host', username: 'username', requiresPassword: false}] satisfy
    the premises of the claim, yet [validateOptions] fails with the
    missing-password message and the constructor throws it, so no instance
    is produced. *)
Theorem constructor_requiresPassword_false_throws :
  hasOwnProperty optsNoPassword "host" = true
  /\ hasOwnProperty optsNoPassword "username" = true
  /\ prop optsNoPassword "requiresPassword" = VBool false
  /\ hasOwnProperty optsNoPassword "password" = false
  /\ hasOwnProperty optsNoPassword "protocol" = false
  /\ validateOptions optsNoPassword = Some (lit "LFTP opts must include password")
  /\ constructor optsNoPassword = inl (Error (lit "LFTP opts must include password")).
Proof. vm_compute. repeat split; reflexivity. Qed.

(** ** Executor *)

Lemma baseCmd_not_nil (this : LFTP) : baseCmd this <> [].
Proof.
  unfold baseCmd, push.
  destruct (jstring_eqb _ _ && truthy _); simpl; discriminate.
Qed.

Lemma baseCmd_set_cmds (this : LFTP) (q : list jstring) :
  baseCmd (set_cmds this q) = baseCmd this.
Proof. reflexivity. Qed.

(** The command string of [exec()] for an arbitrary queue. *)
Lemma exec_no_extra (this : LFTP) :
  exec this VUndef
  = (join (lit ";") (baseCmd this ++ map VStr (cmds this)), set_cmds this []).
Proof. reflexivity. Qed.

(** C2: with the queue [['cmd1','cmd2']], [exec()] builds
    [<preamble>;cmd1;cmd2], the preamble statements being joined by [;]
    as well, and leaves the queue empty; a second [exec()] right after it
    builds the joined preamble alone. *)
Theorem exec_joins_preamble_and_drains_queue (this : LFTP) :
  cmds this = [lit "cmd1"; lit "cmd2"] ->
  fst (exec this VUndef) = join (lit ";") (baseCmd this) ++ lit ";cmd1;cmd2"
  /\ cmds (snd (exec this VUndef)) = []
  /\ options (snd (exec this VUndef)) = options this
  /\ fst (exec (snd (exec this VUndef)) VUndef) = join (lit ";") (baseCmd this)
  /\ cmds (snd (exec (snd (exec this VUndef)) VUndef)) = [].
Proof.
  intros Hq. rewrite !exec_no_extra. cbn [fst snd].
  rewrite Hq. repeat split.
  - rewrite join_app; [reflexivity | apply baseCmd_not_nil | discriminate].
  - rewrite baseCmd_set_cmds. cbn [cmds set_cmds map]. apply join_app_nil_r.
Qed.

Lemma exec_joins_preamble_and_drains_queue_witness :
  cmds (set_cmds testInstance [lit "cmd1"; lit "cmd2"]) = [lit "cmd1"; lit "cmd2"]
  /\ fst (exec (set_cmds testInstance [lit "cmd1"; lit "cmd2"]) VUndef)
     = join (lit ";") (baseCmd (set_cmds testInstance [lit "cmd1"; lit "cmd2"]))
       ++ lit ";cmd1;cmd2".
Proof.
  split; [reflexivity|].
  apply (exec_joins_preamble_and_drains_queue
           (set_cmds testInstance [lit "cmd1"; lit "cmd2"])).
  reflexivity.
Defined.

(** ** Shell escaper *)

(** The escaper in the words of the specification: the listed characters
    (double quote, single quote, dollar, backtick, the two brackets,
    backslash) and every whitespace character get a backslash in front,
    every other character is copied. *)
Definition escaped_chars : list N := [34; 39; 36; 96; 91; 93; 92]%N.

Definition needs_escape (c : N) : bool :=
  bool_decide (c ∈ escaped_chars) || is_js_space c.

Definition escape_char (c : N) : jstring :=
  if needs_escape c then [backslash; c] else [c].

Definition escape_spec (s : jstring) : jstring := flat_map escape_char s.

Lemma shell_class_needs_escape (c : N) : shell_class c = needs_escape c.
Proof.
  unfold shell_class, needs_escape, escaped_chars.
  destruct (is_js_space c) eqn:Hs.
  - rewrite !orb_true_r. reflexivity.
  - rewrite orb_false_r.
    destruct (bool_decide (c ∈ [34; 39; 36; 96; 91; 93; 92]%N)) eqn:Hd.
    + apply bool_decide_eq_true in Hd.
      repeat (apply elem_of_cons in Hd; destruct Hd as [->|Hd]; [reflexivity|]).
      apply elem_of_nil in Hd. contradiction.
    + apply bool_decide_eq_false in Hd.
      repeat match goal with
             | |- context [(c =? ?k)%N] =>
                 destruct (N.eqb_spec c k) as [->|_];
                 [exfalso; apply Hd; set_solver|]
             end.
      reflexivity.
Qed.

Lemma replace_class_escape (s : jstring) :
  replace_class shell_class (fun c => [backslash; c]) s = escape_spec s.
Proof.
  induction s as [|c r IH]; [reflexivity|].
  cbn [replace_class escape_spec flat_map]. unfold escape_char at 1.
  rewrite shell_class_needs_escape, IH. reflexivity.
Qed.

(** Undoing the escaping: a backslash makes the next code unit literal. *)
Fixpoint unescape (s : jstring) : jstring :=
  match s with
  | [] => []
  | c :: r =>
      if (c =? backslash)%N then
        match r with
        | [] => [c]
        | d :: r' => d :: unescape r'
        end
      else c :: unescape r
  end.

(** One pass: the output reads back to the input, so no inserted backslash
    was escaped again and no listed character was left bare. *)
Lemma unescape_escape (s : jstring) : unescape (escape_spec s) = s.
Proof.
  induction s as [|c r IH]; [reflexivity|].
  cbn [escape_spec flat_map]. unfold escape_char at 1.
  destruct (needs_escape c) eqn:Hn.
  - cbn [app unescape]. rewrite N.eqb_refl.
    fold (escape_spec r). rewrite IH. reflexivity.
  - cbn [app unescape]. fold (escape_spec r).
    destruct (N.eqb_spec c backslash) as [->|_]; [discriminate Hn|].
    rewrite IH. reflexivity.
Qed.

(** C3: [escapeShell] gives the empty string for a value that is not a
    string; for a string it prefixes each double quote, whitespace
    character, single quote, dollar, backtick, bracket and backslash with
    one backslash, character by character and in a single pass, and copies
    every other character; on the string of the test it gives the expected
    escaped string. *)
Theorem escapeShell_escapes_each_listed_character :
  (forall v : Val,
      (is_string v = false /\ escapeShell v = VStr [])
      \/ (exists s, v = VStr s /\ escapeShell v = VStr (escape_spec s)))
  /\ (forall c : N,
         escape_spec [c] = if needs_escape c then [backslash; c] else [c])
  /\ (forall s1 s2 : jstring,
         escape_spec (s1 ++ s2) = escape_spec s1 ++ escape_spec s2)
  /\ (forall s : jstring, unescape (escape_spec s) = s)
  /\ escapeShell (VStr (lit "[test] Test.mkv" ++ [34; 39; 36; 96; 92]%N))
     = VStr (lit "\[test\]\ Test.mkv\" ++ [34]%N ++ lit "\'\$\`\\").
Proof.
  repeat split.
  - intros v. destruct v; try (left; split; reflexivity).
    right. exists s. split; [reflexivity|].
    unfold escapeShell. cbn [is_string negb toString].
    rewrite replace_class_escape. reflexivity.
  - intros c. unfold escape_spec. cbn [flat_map]. rewrite app_nil_r. reflexivity.
  - intros s1 s2. unfold escape_spec. apply flat_map_app.
  - apply unescape_escape.
Qed.

(** Safe characters only: the string is returned as it is. *)
Lemma escape_spec_safe (s : jstring) :
  Forall (fun c => needs_escape c = false) s -> escape_spec s = s.
Proof.
  induction 1 as [|c r Hc _ IH]; [reflexivity|].
  cbn [escape_spec flat_map]. unfold escape_char at 1. rewrite Hc.
  fold (escape_spec r). rewrite IH. reflexivity.
Qed.

(** ** Escape mode *)

(** C9: when the [escape] option of the instance is [false], [_escapeShell]
    returns its argument unchanged, whatever its type. *)
Theorem _escapeShell_identity_when_escape_false (this : LFTP) (cmd : Val) :
  escape (options this) = VBool false -> _escapeShell this cmd = cmd.
Proof. intros H. unfold _escapeShell. rewrite H. reflexivity. Qed.

Definition noEscapeOpts : Bag :=
  {[ "host" := VStr (lit "host"); "username" := VStr (lit "username");
     "password" := VStr (lit "pass word"); "escape" := VBool false ]}.

Definition noEscapeInstance : LFTP :=
  match constructor noEscapeOpts with
  | inr this => this
  | inl _ => testInstance
  end.

Lemma _escapeShell_identity_when_escape_false_witness :
  escape (options noEscapeInstance) = VBool false
  /\ _escapeShell noEscapeInstance (VArr [VNum 1; VStr (lit "a b")])
     = VArr [VNum 1; VStr (lit "a b")].
Proof.
  split; [reflexivity|].
  apply (_escapeShell_identity_when_escape_false noEscapeInstance).
  reflexivity.
Defined.

(** The same holds for every falsy value of the option. *)
Lemma _escapeShell_identity_when_escape_falsy (this : LFTP) (cmd : Val) :
  truthy (escape (options this)) = false -> _escapeShell this cmd = cmd.
Proof. intros H. unfold _escapeShell. rewrite H. reflexivity. Qed.

Lemma _escapeShell_enabled (this : LFTP) (cmd : Val) :
  truthy (escape (options this)) = true -> _escapeShell this cmd = escapeShell cmd.
Proof. intros H. unfold _escapeShell. rewrite H. reflexivity. Qed.

(** ** [raw] *)

(** C10: [raw(cmd)] never throws and returns the instance; it appends [cmd]
    to the queue exactly when [cmd] is a string, and for any other value
    leaves the instance as it was. *)
Theorem raw_appends_iff_string (this : LFTP) (cmd : Val) :
  exists this',
    raw this cmd = Returned RetThis this'
    /\ options this' = options this
    /\ spawnOptions this' = spawnOptions this
    /\ ((exists s, cmd = VStr s /\ is_string cmd = true
                   /\ cmds this' = cmds this ++ [s])
        \/ (is_string cmd = false /\ this' = this)).
Proof.
  destruct cmd; cbn [raw is_string];
    try (exists this; repeat split; right; split; reflexivity).
  exists (set_cmds this (push (cmds this) s)). repeat split.
  left. exists s. repeat split.
Qed.

(** ** Construction *)

(** What a successful construction stores, read off the options bag. *)
Lemma constructor_inr (opts : Bag) (this : LFTP) :
  constructor opts = inr this ->
  validateOptions opts = None
  /\ exists p,
      or_else (prop opts "protocol") (VStr (lit "sftp")) = VStr p
      /\ protocol (options this) = toLowerCase p
      /\ host (options this)
         = toLowerCase p ++ lit "://" ++ toString (prop opts "host") ++ lit ":"
           ++ toString (or_else (prop opts "port") (VNum 22))
      /\ username (options this) = prop opts "username"
      /\ password (options this) = or_else (prop opts "password") (VStr [])
      /\ escape (options this) = own_or opts "escape" (VBool true)
      /\ retries (options this) = or_else (prop opts "retries") (VNum 1)
      /\ timeout (options this) = or_else (prop opts "timeout") (VNum 10)
      /\ retryInterval (options this)
         = or_else (prop opts "retryInterval") (VNum 5)
      /\ retryIntervalMultiplier (options this)
         = or_else (prop opts "retryIntervalMultiplier") (VNum 1)
      /\ autoConfirm (options this) = own_or opts "autoConfirm" (VBool false)
      /\ cmds this = [].
Proof.
  unfold constructor. destruct (validateOptions opts) as [msg|]; [discriminate|].
  destruct (or_else (prop opts "protocol") (VStr (lit "sftp"))) eqn:Ep;
    try discriminate.
  intros H. injection H as H. subst this. split; [reflexivity|].
  exists s. repeat split.
Qed.

(** A validated protocol is one of the three accepted names; an absent one
    defaults to [sftp]. *)
Lemma validated_protocol (opts : Bag) :
  validateOptions opts = None ->
  match opts !! "protocol" with
  | Some v => exists p, v = VStr p /\ p ∈ acceptableProtocols
  | None => True
  end.
Proof.
  unfold validateOptions.
  destruct (negb (hasOwnProperty opts "host")); [discriminate|].
  destruct (negb (hasOwnProperty opts "username")); [discriminate|].
  destruct (truthy _ && negb (hasOwnProperty opts "password")); [discriminate|].
  unfold hasOwnProperty at 1, prop. destruct (opts !! "protocol") as [v|]; [|done].
  cbn [default]. destruct v; cbn; try discriminate.
  destruct (bool_decide (s ∈ acceptableProtocols)) eqn:E; [|discriminate].
  intros _. exists s. split; [reflexivity|]. apply bool_decide_eq_true in E. exact E.
Qed.

Lemma acceptable_protocol_cases (p : jstring) :
  p ∈ acceptableProtocols -> p = lit "ftp" \/ p = lit "sftp" \/ p = lit "ftps".
Proof.
  unfold acceptableProtocols. rewrite !elem_of_cons, elem_of_nil. tauto.
Qed.

Lemma acceptable_protocol_lower (p : jstring) :
  p ∈ acceptableProtocols -> toLowerCase p = p /\ truthy (VStr p) = true.
Proof.
  intros H. apply acceptable_protocol_cases in H.
  destruct H as [-> | [-> | ->] ]; split; reflexivity.
Qed.

(** The host string as the claim words it: the supplied protocol
    lower-cased or [sftp], the host, and the supplied port or [22] when the
    port is absent. *)
Definition claimed_host (opts : Bag) : jstring :=
  let protocol :=
    match opts !! "protocol" with
    | Some (VStr p) => toLowerCase p
    | _ => lit "sftp"
    end in
  let port := default (VNum 22) (opts !! "port") in
  protocol ++ lit "://" ++ toString (prop opts "host") ++ lit ":" ++ toString port.

(** The host string the constructor builds: as above, but the port is [22]
    also when a falsy port is supplied. *)
Definition normalized_host (opts : Bag) : jstring :=
  let protocol :=
    match opts !! "protocol" with
    | Some (VStr p) => toLowerCase p
    | _ => lit "sftp"
    end in
  let port := if truthy (prop opts "port") then prop opts "port" else VNum 22 in
  protocol ++ lit "://" ++ toString (prop opts "host") ++ lit ":" ++ toString port.

Definition optsPortZero : Bag :=
  {[ "host" := VStr (lit "host"); "username" := VStr (lit "username");
     "password" := VStr (lit "password"); "port" := VNum 0 ]}.

(** C8 (as stated, refuted): with [port: 0] the bag is accepted, the host
    string is [sftp://host:22], and the claim asks for [sftp://host:0]. *)
Lemma host_port_zero_counterexample :
  ~ (forall (opts : Bag) (this : LFTP),
        constructor opts = inr this -> host (options this) = claimed_host opts).
Proof.
  intros H.
  destruct (constructor optsPortZero) as [e|this] eqn:E; [discriminate E|].
  specialize (H optsPortZero this E).
  vm_compute in E. injection E as E. subst this. vm_compute in H. discriminate H.
Qed.

Example host_port_zero :
  (match constructor optsPortZero with
   | inr this => Some (host (options this))
   | inl _ => None
   end) = Some (lit "sftp://host:22")
  /\ claimed_host optsPortZero = lit "sftp://host:0".
Proof. vm_compute. split; reflexivity. Qed.

(** C8 (amended): for every options bag accepted by the constructor the
    host string is [<protocol>://<host>:<port>], the protocol being the
    supplied one (one of the three accepted names, which lower-casing
    leaves as it is) or [sftp] when absent, and the port being the supplied
    port when it is truthy and [22] when it is absent or falsy. *)
Theorem host_is_protocol_host_port (opts : Bag) (this : LFTP) :
  constructor opts = inr this ->
  host (options this) = normalized_host opts
  /\ (forall port, opts !! "port" = Some port -> truthy port = true ->
        normalized_host opts = claimed_host opts)
  /\ (opts !! "port" = None -> normalized_host opts = claimed_host opts)
  /\ protocol (options this)
     = match opts !! "protocol" with
       | Some (VStr p) => toLowerCase p
       | _ => lit "sftp"
       end
  /\ protocol (options this) ∈ acceptableProtocols.
Proof.
  intros Hc. apply constructor_inr in Hc.
  destruct Hc as (Hv & p & Hp & Hproto & Hhost & _).
  apply validated_protocol in Hv.
  assert (Hsel : toLowerCase p
                 = match opts !! "protocol" with
                   | Some (VStr q) => toLowerCase q
                   | _ => lit "sftp"
                   end /\ toLowerCase p ∈ acceptableProtocols).
  { unfold prop in Hp. destruct (opts !! "protocol") as [v|]; cbn [default] in Hp.
    - destruct Hv as (q & -> & Hq).
      destruct (acceptable_protocol_lower q Hq) as [Hl Ht].
      unfold or_else in Hp.
      destruct q as [|c q']; [discriminate Ht|].
      cbn [truthy] in Hp. injection Hp as Hp. subst p.
      rewrite Hl. split; [reflexivity | exact Hq].
    - unfold or_else in Hp. cbn [truthy] in Hp. injection Hp as Hp. subst p.
      split; [reflexivity|].
      change (toLowerCase (lit "sftp")) with (lit "sftp").
      unfold acceptableProtocols. rewrite !elem_of_cons. tauto. }
  destruct Hsel as [Hsel Hin].
  repeat split.
  - rewrite Hhost. unfold normalized_host, or_else. rewrite Hsel. reflexivity.
  - intros port Hport Ht. unfold normalized_host, claimed_host, prop.
    rewrite Hport. cbn [from_option id]. rewrite Ht. reflexivity.
  - intros Hport. unfold normalized_host, claimed_host, prop.
    rewrite Hport. reflexivity.
  - rewrite Hproto. exact Hsel.
  - rewrite Hproto. exact Hin.
Qed.

Lemma host_is_protocol_host_port_witness :
  constructor testOpts = inr testInstance
  /\ host (options testInstance) = normalized_host testOpts.
Proof.
  split; [reflexivity|].
  exact (proj1 (host_is_protocol_host_port testOpts testInstance eq_refl)).
Defined.

(** ** Preamble *)

Definition autoConfirmLine : Val := VStr (lit "set sftp:auto-confirm yes").

(** The five statements every preamble ends with. *)
Definition settings (this : LFTP) : list Val :=
  let o := options this in
  [ VStr (lit "set net:max-retries " ++ toString (retries o));
    VStr (lit "set net:timeout " ++ toString (timeout o));
    VStr (lit "set net:reconnect-interval-base " ++ toString (retryInterval o));
    VStr (lit "set net:reconnect-interval-multiplier "
          ++ toString (retryIntervalMultiplier o));
    VStr (lit "open -u " ++ [dquote]
          ++ toString (_escapeShell this (username o)) ++ [dquote]
          ++ lit "," ++ [dquote]
          ++ toString (_escapeShell this (password o)) ++ [dquote]
          ++ lit " " ++ [dquote] ++ host o ++ [dquote]) ].

Lemma baseCmd_eq (this : LFTP) :
  baseCmd this
  = (if jstring_eqb (protocol (options this)) (lit "sftp")
        && truthy (autoConfirm (options this))
     then [autoConfirmLine] else []) ++ settings this.
Proof.
  unfold baseCmd, settings, push, autoConfirmLine.
  destruct (jstring_eqb _ _ && truthy _); reflexivity.
Qed.

(** None of the five statements is the auto-confirm statement. *)
Lemma autoConfirmLine_not_in_settings (this : LFTP) :
  autoConfirmLine ∉ settings this.
Proof.
  unfold settings, autoConfirmLine. intros H.
  repeat (apply elem_of_cons in H; destruct H as [H|H]; [discriminate H|]).
  apply elem_of_nil in H. exact H.
Qed.

Definition optsAutoConfirmOne : Bag :=
  {[ "host" := VStr (lit "host"); "username" := VStr (lit "username");
     "password" := VStr (lit "password"); "autoConfirm" := VNum 1 ]}.

(** C7 (as stated, refuted): the bag with [autoConfirm: 1] is accepted, its
    protocol is [sftp] and its preamble starts with the auto-confirm
    statement, although [autoConfirm] is not [true]: [baseCmd] tests the
    truthiness of the option. *)
Lemma baseCmd_autoConfirm_one_counterexample :
  ~ (forall (opts : Bag) (this : LFTP),
        constructor opts = inr this ->
        (autoConfirmLine ∈ baseCmd this
         <-> protocol (options this) = lit "sftp"
             /\ autoConfirm (options this) = VBool true)).
Proof.
  intros H.
  destruct (constructor optsAutoConfirmOne) as [e|this] eqn:E; [discriminate E|].
  specialize (H optsAutoConfirmOne this E).
  vm_compute in E. injection E as E. subst this.
  destruct H as [H _].
  assert (Hin : autoConfirmLine
                ∈ baseCmd
                    {| options :=
                         {| host := lit "sftp://host:22";
                            username := VStr (lit "username");
                            password := VStr (lit "password");
                            protocol := lit "sftp";
                            escape := VBool true;
                            retries := VNum 1;
                            timeout := VNum 10;
                            retryInterval := VNum 5;
                            retryIntervalMultiplier := VNum 1;
                            autoConfirm := VNum 1 |};
                       spawnOptions := ∅;
                       cmds := [] |}).
  { apply elem_of_cons. left. reflexivity. }
  destruct (H Hin) as [_ Hf]. discriminate Hf.
Qed.

Example baseCmd_autoConfirm_one :
  (match constructor optsAutoConfirmOne with
   | inr this => Some (autoConfirm (options this), head (baseCmd this))
   | inl _ => None
   end) = Some (VNum 1, Some autoConfirmLine).
Proof. vm_compute. reflexivity. Qed.

(** C7 (amended): for an instance built from an accepted options bag,
    [baseCmd] is the auto-confirm statement, present exactly when the
    protocol is [sftp] and [autoConfirm] is truthy (for a boolean
    [autoConfirm]: exactly when it is [true]), followed in this order by
    the max-retries, timeout, reconnect-interval-base and
    reconnect-interval-multiplier statements with the values of the
    instance's options, and the open statement with the user name and the
    password sent through [_escapeShell] and the host string as it is. *)
Theorem baseCmd_fixed_order (opts : Bag) (this : LFTP) :
  constructor opts = inr this ->
  let o := options this in
  let statements :=
    [ VStr (lit "set net:max-retries " ++ toString (retries o));
      VStr (lit "set net:timeout " ++ toString (timeout o));
      VStr (lit "set net:reconnect-interval-base " ++ toString (retryInterval o));
      VStr (lit "set net:reconnect-interval-multiplier "
            ++ toString (retryIntervalMultiplier o));
      VStr (lit "open -u " ++ [dquote]
            ++ toString (_escapeShell this (username o)) ++ [dquote]
            ++ lit "," ++ [dquote]
            ++ toString (_escapeShell this (password o)) ++ [dquote]
            ++ lit " " ++ [dquote] ++ host o ++ [dquote]) ] in
  ((protocol o = lit "sftp" /\ truthy (autoConfirm o) = true
    /\ baseCmd this = autoConfirmLine :: statements)
   \/ (~ (protocol o = lit "sftp" /\ truthy (autoConfirm o) = true)
       /\ baseCmd this = statements))
  /\ (autoConfirmLine ∈ baseCmd this
      <-> protocol o = lit "sftp" /\ truthy (autoConfirm o) = true)
  /\ (forall b : bool,
         autoConfirm o = VBool b ->
         (autoConfirmLine ∈ baseCmd this <-> protocol o = lit "sftp" /\ b = true)).
Proof.
  intros _ o statements.
  assert (Hst : statements = settings this) by reflexivity.
  assert (Hcases :
    (protocol o = lit "sftp" /\ truthy (autoConfirm o) = true
     /\ baseCmd this = autoConfirmLine :: statements)
    \/ (~ (protocol o = lit "sftp" /\ truthy (autoConfirm o) = true)
        /\ baseCmd this = statements)).
  { rewrite baseCmd_eq, Hst. unfold jstring_eqb. fold o.
    destruct (bool_decide (protocol o = lit "sftp")) eqn:Ep.
    - apply bool_decide_eq_true in Ep. destruct (truthy (autoConfirm o)) eqn:Ea.
      + left. repeat split. exact Ep.
      + right. split; [|reflexivity]. intros [_ Hf]. discriminate Hf.
    - apply bool_decide_eq_false in Ep.
      right. split; [|reflexivity]. intros [Hf _]. contradiction. }
  assert (Hiff : autoConfirmLine ∈ baseCmd this
                 <-> protocol o = lit "sftp" /\ truthy (autoConfirm o) = true).
  { destruct Hcases as [(Hp & Ha & ->)|(Hn & ->)].
    - split; [intros _; split; assumption
             | intros _; apply elem_of_cons; left; reflexivity].
    - split; [intros Hin | intros Hpa; contradiction].
      exfalso. rewrite Hst in Hin.
      exact (autoConfirmLine_not_in_settings this Hin). }
  split; [exact Hcases|]. split; [exact Hiff|].
  intros b Hb. rewrite Hiff, Hb. reflexivity.
Qed.

Lemma baseCmd_fixed_order_witness :
  constructor testOpts = inr testInstance
  /\ (autoConfirmLine ∈ baseCmd testInstance
      <-> protocol (options testInstance) = lit "sftp"
          /\ truthy (autoConfirm (options testInstance)) = true).
Proof.
  split; [reflexivity|].
  exact (proj1 (proj2 (baseCmd_fixed_order testOpts testInstance eq_refl))).
Defined.

(** ** Subcommand builders: what a call does to the instance *)

(** The instance after the call differs from the one before by at most one
    entry appended to the queue. *)
Definition appends_at_most_one (this this' : LFTP) : Prop :=
  options this' = options this
  /\ spawnOptions this' = spawnOptions this
  /\ (cmds this' = cmds this \/ exists e, cmds this' = cmds this ++ [e]).

(** The shape of a builder call: it returns the instance with at most one
    more entry queued, or throws the [Error] of [fail] and leaves the
    instance as it was. *)
Definition well_behaved (this : LFTP) (r : Result) : Prop :=
  match r with
  | Returned ret this' => ret = RetThis /\ appends_at_most_one this this'
  | Thrown (Error _) this' => this' = this
  | Thrown TypeError _ => False
  end.

Lemma appends_at_most_one_refl (this : LFTP) : appends_at_most_one this this.
Proof. repeat split. left. reflexivity. Qed.

Lemma well_behaved_raw (this : LFTP) (cmd : Val) : well_behaved this (raw this cmd).
Proof.
  destruct cmd; cbn [raw well_behaved];
    try (split; [reflexivity | apply appends_at_most_one_refl]).
  split; [reflexivity|]. repeat split. right. exists s. reflexivity.
Qed.

Lemma well_behaved_fail (this : LFTP) (msg : jstring) :
  well_behaved this (fail this msg).
Proof. reflexivity. Qed.

Lemma well_behaved_raw_join (this : LFTP) (cmd : list Val) :
  well_behaved this (raw_join this cmd).
Proof. apply well_behaved_raw. Qed.

Lemma well_behaved_finish (this : LFTP) (r : jstring + list Val) :
  well_behaved this (finish this r).
Proof. destruct r; [apply well_behaved_fail | apply well_behaved_raw_join]. Qed.

Create HintDb builders.
#[local] Hint Resolve well_behaved_raw well_behaved_fail well_behaved_raw_join
  well_behaved_finish : builders.

(** Case analysis on the guards of a builder, each branch ending in
    [fail], [raw] or [raw_join]. *)
Ltac builder_cases :=
  repeat first
    [ solve [auto with builders]
    | progress cbv zeta
    | case_match ].

Lemma well_behaved_alias this name value : well_behaved this (alias this name value).
Proof. unfold alias. builder_cases. Qed.

Lemma well_behaved_at this time : well_behaved this (at_ this time).
Proof. unfold at_. builder_cases. Qed.

Lemma well_behaved_attach this pid : well_behaved this (attach this pid).
Proof. unfold attach. builder_cases. Qed.

Lemma well_behaved_bookmark this subCmd opts :
  well_behaved this (bookmark this subCmd opts).
Proof. unfold bookmark. builder_cases. Qed.

Lemma well_behaved_cache this subCmd opts : well_behaved this (cache this subCmd opts).
Proof. unfold cache. builder_cases. Qed.

Lemma well_behaved_cat this path : well_behaved this (cat this path).
Proof. unfold cat. builder_cases. Qed.

Lemma well_behaved_cd this dir : well_behaved this (cd this dir).
Proof. unfold cd. builder_cases. Qed.

Lemma well_behaved_chmod this mode files : well_behaved this (chmod this mode files).
Proof. unfold chmod. builder_cases. Qed.

Lemma well_behaved_close this all : well_behaved this (close this all).
Proof. unfold close. builder_cases. Qed.

Lemma well_behaved_cls this opts : well_behaved this (cls this opts).
Proof. unfold cls. builder_cases. Qed.

Lemma well_behaved_debug this level opts : well_behaved this (debug this level opts).
Proof. unfold debug. builder_cases. Qed.

Lemma well_behaved_echo this str : well_behaved this (echo this str).
Proof. unfold echo. builder_cases. Qed.

Lemma well_behaved_edit this file opts : well_behaved this (edit this file opts).
Proof. unfold edit. builder_cases. Qed.

Lemma well_behaved_eval this args opts : well_behaved this (eval this args opts).
Proof. unfold eval. builder_cases. Qed.

Lemma well_behaved_find this opts : well_behaved this (find this opts).
Proof. unfold find. builder_cases. Qed.

Lemma well_behaved_get this remotePath opts :
  well_behaved this (get this remotePath opts).
Proof. unfold get. builder_cases. Qed.

Lemma well_behaved_get1 this remoteFile opts :
  well_behaved this (get1 this remoteFile opts).
Proof. unfold get1. builder_cases. Qed.

Lemma well_behaved_glob this patterns opts :
  well_behaved this (glob this patterns opts).
Proof. unfold glob. builder_cases. Qed.

Lemma well_behaved_help this opts : well_behaved this (help this opts).
Proof. unfold help. builder_cases. Qed.

Lemma well_behaved_jobs parseNumber this opts :
  well_behaved this (jobs parseNumber this opts).
Proof. unfold jobs. builder_cases. Qed.

Lemma well_behaved_kill this opts : well_behaved this (kill this opts).
Proof. unfold kill. builder_cases. Qed.

Lemma well_behaved_lcd this dir : well_behaved this (lcd this dir).
Proof. unfold lcd. builder_cases. Qed.

Lemma well_behaved_ln this existingFile newLink opts :
  well_behaved this (ln this existingFile newLink opts).
Proof. unfold ln. builder_cases. Qed.

Lemma well_behaved_local this command : well_behaved this (local this command).
Proof. unfold local. builder_cases. Qed.

Lemma well_behaved_put this localPath opts :
  well_behaved this (put this localPath opts).
Proof. unfold put. builder_cases. Qed.

Lemma well_behaved_mv this src dest : well_behaved this (mv this src dest).
Proof. unfold mv. builder_cases. Qed.

Lemma well_behaved_rm this files : well_behaved this (rm this files).
Proof. unfold rm. builder_cases. Qed.

Lemma well_behaved_rmdir this directories :
  well_behaved this (rmdir this directories).
Proof. unfold rmdir. builder_cases. Qed.

Lemma well_behaved_mirror this remoteDir opts :
  well_behaved this (mirror this remoteDir opts).
Proof. unfold mirror. builder_cases. Qed.

Lemma well_behaved_pget this remotePath opts :
  well_behaved this (pget this remotePath opts).
Proof. unfold pget. builder_cases. Qed.

#[local] Hint Resolve well_behaved_alias well_behaved_at well_behaved_attach
  well_behaved_bookmark well_behaved_cache well_behaved_cat well_behaved_cd
  well_behaved_chmod well_behaved_close well_behaved_cls well_behaved_debug
  well_behaved_echo well_behaved_edit well_behaved_eval well_behaved_find
  well_behaved_get well_behaved_get1 well_behaved_glob well_behaved_help
  well_behaved_jobs well_behaved_kill well_behaved_lcd well_behaved_ln
  well_behaved_local well_behaved_put well_behaved_mv well_behaved_rm
  well_behaved_rmdir well_behaved_mirror well_behaved_pget : builders.

(** [exit] behaves like the other builders except for what it returns. *)
Lemma exit_shape (this : LFTP) (subCmd : Val) (opts : Bag) :
  match exit this subCmd opts with
  | Returned ret this' => ret = RetUndefined /\ appends_at_most_one this this'
  | Thrown (Error _) this' => this' = this
  | Thrown TypeError _ => False
  end.
Proof.
  unfold exit. cbv zeta.
  match goal with
  | |- context [match ?s with inl _ => _ | inr _ => _ end] =>
      destruct s as [msg|cmd]
  end.
  - reflexivity.
  - match goal with
    | |- context [raw_join ?t ?c] =>
        pose proof (well_behaved_raw_join t c) as Hwb;
        destruct (raw_join t c) as [ret t'|[m|] t']
    end; cbn [well_behaved] in Hwb;
      [split; [reflexivity | tauto] | exact Hwb | contradiction].
Qed.

(** Every call other than [exit] and [command] is well behaved. *)
Lemma run_well_behaved parseNumber (this : LFTP) (c : Call) (r : Result) :
  run parseNumber this c = Some r ->
  (forall subCmd opts, c <> Exit subCmd opts) ->
  (forall cmd args, c <> Command cmd args) ->
  well_behaved this r.
Proof.
  intros Hr He Hc. unfold run in Hr.
  destruct c; cbn [run_with] in Hr;
    try (injection Hr as Hr; subst r; unfold lpwd, ls, pwd;
         solve [auto with builders]).
  - exfalso. exact (Hc cmd args eq_refl).
  - exfalso. exact (He subCmd opts eq_refl).
Qed.

(** A [command] reached from [command] fails on its missing second
    argument, or on its first. *)
Lemma inner_command_fails invoke (this : LFTP) (cmd : Val) :
  exists msg,
    command_with invoke this cmd VUndef = Some (Thrown (Error msg) this).
Proof.
  unfold command_with, fail. destruct (negb (truthy cmd)); eexists; reflexivity.
Qed.

Lemma is_command_dec (c : Call) :
  (exists cmd args, c = Command cmd args) \/ (forall cmd args, c <> Command cmd args).
Proof. destruct c; try (right; discriminate). left. eauto. Qed.

Lemma is_exit_dec (c : Call) :
  (exists subCmd opts, c = Exit subCmd opts)
  \/ (forall subCmd opts, c <> Exit subCmd opts).
Proof. destruct c; try (right; discriminate). left. eauto. Qed.

(** Only [command] looks at the method table. *)
Lemma run_with_invoke_irrelevant parseNumber invoke1 invoke2 (this : LFTP)
    (c : Call) :
  (forall cmd args, c <> Command cmd args) ->
  run_with parseNumber invoke1 this c = run_with parseNumber invoke2 this c.
Proof. intros H. destruct c; try reflexivity. exfalso. exact (H _ _ eq_refl). Qed.

Lemma method_call_command (cmd : jstring) (args a b : Val) :
  method_call cmd args = Some (Command a b) -> b = VUndef.
Proof.
  unfold method_call. intros H. repeat case_match; simplify_eq. reflexivity.
Qed.

(** What [this[cmd](args)] can do: return the instance with at most one
    entry queued, return [undefined] likewise ([exit]), or throw the
    [Error] of [fail] with the instance as it was. *)
Lemma invoke_inner_shape parseNumber (this : LFTP) (cmd : jstring) (args : Val)
    (r : Result) :
  invoke_inner parseNumber this cmd args = Some r ->
  match r with
  | Returned _ this' => appends_at_most_one this this'
  | Thrown (Error _) this' => this' = this
  | Thrown TypeError _ => False
  end.
Proof.
  unfold invoke_inner.
  destruct (method_call cmd args) as [c|] eqn:Em; [|discriminate].
  intros Hr.
  destruct (is_command_dec c) as [(a & b & ->)|Hnc].
  - apply method_call_command in Em. subst b. cbn [run_with] in Hr.
    destruct (inner_command_fails (fun _ _ _ => None) this a) as [m Hm].
    rewrite Hm in Hr. injection Hr as Hr. subst r. reflexivity.
  - destruct (is_exit_dec c) as [(s & o & ->)|Hne].
    + cbn [run_with] in Hr. injection Hr as Hr. subst r.
      pose proof (exit_shape this s o) as Hs.
      destruct (exit this s o) as [ret this'|[msg|] this']; tauto.
    + rewrite (run_with_invoke_irrelevant parseNumber _
                 (invoke_inner parseNumber)) in Hr by exact Hnc.
      apply run_well_behaved in Hr; [|exact Hne|exact Hnc].
      destruct r as [ret this'|[msg|] this']; cbn [well_behaved] in Hr; tauto.
Qed.

(** An argument error never changes the instance, whichever builder threw
    it and whatever the queue held. *)
Lemma run_error_unchanged parseNumber (this this' : LFTP) (c : Call)
    (msg : jstring) :
  run parseNumber this c = Some (Thrown (Error msg) this') -> this' = this.
Proof.
  intros Hr. destruct c;
    try (pose proof (run_well_behaved parseNumber this _ _ Hr
                       ltac:(discriminate) ltac:(discriminate)) as Hwb;
         exact Hwb).
  - unfold run in Hr. cbn [run_with] in Hr. unfold command_with in Hr.
    destruct (negb (truthy cmd)); [unfold fail in Hr; congruence|].
    destruct (negb (truthy args)); [unfold fail in Hr; congruence|].
    destruct (invoke_inner parseNumber this (toString cmd) args) as [r|] eqn:Ei;
      [|discriminate].
    apply invoke_inner_shape in Ei.
    destruct r as [ret t|[m|] t].
    + destruct ret; [|discriminate]. cbn [raw] in Hr. discriminate Hr.
    + injection Hr as _ Ht. congruence.
    + contradiction.
  - unfold run in Hr. cbn [run_with] in Hr. injection Hr as Hr.
    pose proof (exit_shape this subCmd opts) as Hs. rewrite Hr in Hs. exact Hs.
Qed.

(** ** Argument errors *)

(** The call result [r] is the [Error] with message [msg] thrown by [fail],
    and the instance, its queue included, is the one before the call. *)
Definition argument_error (this : LFTP) (r : Result) (msg : jstring) : Prop :=
  r = Thrown (Error msg) this.

Ltac missing_argument :=
  intros;
  unfold argument_error, command, command_with, at_, attach, bookmark, cache,
    cat, cd, chmod, debug, edit, eval, exit, get, get1, glob, ln, local, mv,
    put, rm, rmdir, mirror, pget, finish, fail;
  repeat match goal with
         | H : _ !! _ = None |- _ =>
             rewrite ?(hasOwnProperty_None _ _ H), ?(prop_None _ _ H); clear H
         | H : truthy _ = _ |- _ => rewrite ?H; clear H
         end;
  cbn [truthy negb str_is is_string orb andb length bool_decide];
  try reflexivity.

(** C4: for every instance, whatever its queue holds, a builder called
    without a required argument, or [bookmark], [cache], [glob] and
    [mirror] called without the option their subcommand requires, throws
    the [Error] of [fail] and leaves the instance, hence the queue, as it
    was; and no argument error of any builder changes the instance. *)
Theorem missing_required_argument_fails parseNumber (this : LFTP) :
  argument_error this (at_ this VUndef) (lit "at() requires time argument")
  /\ argument_error this (attach this VUndef) (lit "attach() requires pid argument")
  /\ (forall opts, argument_error this (bookmark this VUndef opts)
                     (lit "bookmark() requires subCmd argument"))
  /\ (forall opts, opts !! "name" = None ->
        argument_error this (bookmark this (VStr (lit "add")) opts)
          (lit "bookmark(add) opts argument requires name property"))
  /\ (forall opts, opts !! "name" = None ->
        argument_error this (bookmark this (VStr (lit "del")) opts)
          (lit "bookmark(del) opts argument requires name property"))
  /\ (forall opts, opts !! "type" = None ->
        argument_error this (bookmark this (VStr (lit "import")) opts)
          (lit "bookmark(import) opts argument requires type property"))
  /\ (forall opts, argument_error this (cache this VUndef opts)
                     (lit "cache() requires subCmd argument"))
  /\ (forall opts, opts !! "lim" = None ->
        argument_error this (cache this (VStr (lit "size")) opts)
          (lit "cache(size) opts argument requires lim property"))
  /\ (forall opts, opts !! "n" = None \/ opts !! "unit" = None ->
        argument_error this (cache this (VStr (lit "expire")) opts)
          (lit "cache(expire) opts argument requires n and unit properties"))
  /\ argument_error this (cat this VUndef) (lit "cat() requires path argument")
  /\ argument_error this (cd this VUndef) (lit "cd() requires dir argument")
  /\ (forall files, argument_error this (chmod this VUndef files)
                      (lit "chmod() requires mode argument"))
  /\ (forall mode, truthy mode = true ->
        argument_error this (chmod this mode [])
          (lit "chmod() requires files argument(s)"))
  /\ (forall args,
        command parseNumber this VUndef args
        = Some (Thrown (Error (lit "command() requires cmd argument")) this))
  /\ (forall cmd, truthy cmd = true ->
        command parseNumber this cmd VUndef
        = Some (Thrown (Error (lit "command() requires args argument")) this))
  /\ (forall opts, argument_error this (debug this VUndef opts)
                     (lit "debug() requires level argument"))
  /\ (forall opts, argument_error this (edit this VUndef opts)
                     (lit "edit() requires file argument"))
  /\ (forall opts, argument_error this (eval this VUndef opts)
                     (lit "eval() requires args argument"))
  /\ (forall opts, argument_error this (exit this VUndef opts)
                     (lit "exit() requires subCmd argument"))
  /\ (forall opts, argument_error this (get this VUndef opts)
                     (lit "get() require remotePath argument"))
  /\ (forall opts, argument_error this (get1 this VUndef opts)
                     (lit "get1() requires remoteFile argument"))
  /\ (forall opts, argument_error this (glob this VUndef opts)
                     (lit "glob() requires patterns argument"))
  /\ (forall patterns opts,
        truthy patterns = true ->
        truthy (prop opts "exist") = false ->
        truthy (prop opts "notExist") = false ->
        opts !! "command" = None ->
        argument_error this (glob this patterns opts)
          (lit "glob() opts argument requires exist, notExist, and/or command properties"))
  /\ (forall newLink opts, argument_error this (ln this VUndef newLink opts)
                             (lit "ln() requires existingFile argument"))
  /\ (forall existingFile opts, truthy existingFile = true ->
        argument_error this (ln this existingFile VUndef opts)
          (lit "ln() requires newLink argument"))
  /\ argument_error this (local this VUndef) (lit "local() requires command argument")
  /\ (forall dest, argument_error this (mv this VUndef dest)
                     (lit "mv() requires src argument"))
  /\ (forall src, truthy src = true ->
        argument_error this (mv this src VUndef) (lit "mv() requires dest argument"))
  /\ (forall opts, argument_error this (put this VUndef opts)
                     (lit "put() requires localPath argument"))
  /\ argument_error this (rm this []) (lit "rm() requires files argument(s)")
  /\ argument_error this (rmdir this [])
       (lit "rmdir() requires directories argument(s)")
  /\ (forall opts, argument_error this (mirror this VUndef opts)
                     (lit "mirror() requires remoteDir argument"))
  /\ (forall remoteDir opts,
        truthy remoteDir = true ->
        truthy (prop opts "upload") = true ->
        opts !! "localDir" = None ->
        argument_error this (mirror this remoteDir opts)
          (lit "mirror(opts = {upload: true}) opts argument requires localDir property"))
  /\ (forall opts, argument_error this (pget this VUndef opts)
                     (lit "pget() requires remotePath argument"))
  /\ (forall (c : Call) (msg : jstring) (this' : LFTP),
        run parseNumber this c = Some (Thrown (Error msg) this') ->
        this' = this /\ cmds this' = cmds this
        /\ length (cmds this') = length (cmds this)).
Proof.
  repeat match goal with |- _ /\ _ => split end; try solve [missing_argument].
  - intros opts [H|H]; missing_argument.
    destruct (hasOwnProperty opts "n"); reflexivity.
  - intros c msg this' H. apply run_error_unchanged in H. subst this'.
    repeat split.
Qed.

(** ** What a builder returns *)

(** Every call other than [exit] that returns, returns the instance. *)
Lemma run_returns_this parseNumber (this this' : LFTP) (c : Call) (ret : Ret) :
  run parseNumber this c = Some (Returned ret this') ->
  (forall subCmd opts, c <> Exit subCmd opts) ->
  ret = RetThis.
Proof.
  intros Hr He. destruct (is_command_dec c) as [(a & b & ->)|Hnc].
  - unfold run in Hr. cbn [run_with] in Hr. unfold command_with, fail in Hr.
    destruct (negb (truthy a)); [discriminate|].
    destruct (negb (truthy b)); [discriminate|].
    destruct (invoke_inner parseNumber this (toString a) b) as [r|]; [|discriminate].
    destruct r as [[|] t|e t]; try discriminate.
    cbn [raw] in Hr. congruence.
  - apply run_well_behaved in Hr; [|exact He|exact Hnc]. apply Hr.
Qed.

(** C5 (evaluation of the code): [exit] with a recognized subcommand queues
    its command and returns [undefined], not the instance; so does every
    call of [exit] that returns. *)
Theorem exit_returns_undefined (this : LFTP) :
  exit this (VStr (lit "bg")) ∅
  = Returned RetUndefined (set_cmds this (cmds this ++ [lit "exit bg"]))
  /\ exit this (VStr (lit "top")) ∅
     = Returned RetUndefined (set_cmds this (cmds this ++ [lit "exit top"]))
  /\ exit this (VStr (lit "parent")) ∅
     = Returned RetUndefined (set_cmds this (cmds this ++ [lit "exit parent"]))
  /\ exit this (VStr (lit "kill")) ∅
     = Returned RetUndefined (set_cmds this (cmds this ++ [lit "exit kill"]))
  /\ (forall subCmd opts ret this',
         exit this subCmd opts = Returned ret this' -> ret = RetUndefined).
Proof.
  repeat split; try reflexivity.
  intros subCmd opts ret this' H.
  pose proof (exit_shape this subCmd opts) as Hs. rewrite H in Hs. apply Hs.
Qed.

(** A consequence: [command('exit', 'bg')] queues [exit bg] and then stops
    on a [TypeError], reading [.cmds] off [undefined]. *)
Example command_exit_type_error parseNumber :
  command parseNumber testInstance (VStr (lit "exit")) (VStr (lit "bg"))
  = Some (Thrown TypeError (set_cmds testInstance [lit "exit bg"])).
Proof. vm_compute. reflexivity. Qed.

(** ** How many entries a call queues *)

(** Every call other than [command] that returns has queued at most one
    entry, at the end of the queue. *)
Lemma run_appends_at_most_one parseNumber (this this' : LFTP) (c : Call)
    (ret : Ret) :
  run parseNumber this c = Some (Returned ret this') ->
  (forall cmd args, c <> Command cmd args) ->
  appends_at_most_one this this'.
Proof.
  intros Hr Hnc. destruct (is_exit_dec c) as [(s & o & ->)|Hne].
  - unfold run in Hr. cbn [run_with] in Hr. injection Hr as Hr.
    pose proof (exit_shape this s o) as Hs. rewrite Hr in Hs. apply Hs.
  - apply run_well_behaved in Hr; [|exact Hne|exact Hnc]. apply Hr.
Qed.

Lemma _escapeShell_test (this : LFTP) :
  _escapeShell this (VStr (lit "test")) = VStr (lit "test").
Proof. unfold _escapeShell. destruct (truthy _); reflexivity. Qed.

Lemma _last_snoc (q : list jstring) (s : jstring) : _last (q ++ [s]) = VStr s.
Proof. unfold _last. rewrite last_snoc. reflexivity. Qed.

(** C6 (evaluation of the code): [command('echo', 'test')] queues two
    entries, the [echo test] of the builder it delegates to and the
    [command echo test] it wraps around it. *)
Theorem command_appends_two_entries parseNumber (this : LFTP) :
  exists this',
    command parseNumber this (VStr (lit "echo")) (VStr (lit "test"))
    = Some (Returned RetThis this')
    /\ cmds this' = cmds this ++ [lit "echo test"; lit "command echo test"]
    /\ length (cmds this') = (length (cmds this) + 2)%nat.
Proof.
  exists (set_cmds this (cmds this ++ [lit "echo test"; lit "command echo test"])).
  split; [|split].
  - unfold command, command_with.
    change (negb (truthy (VStr (lit "echo")))) with false.
    change (negb (truthy (VStr (lit "test")))) with false.
    cbv iota. cbn [toString]. unfold invoke_inner.
    change (method_call (lit "echo") (VStr (lit "test")))
      with (Some (Echo (VStr (lit "test")))).
    cbn [run_with]. unfold echo. rewrite _escapeShell_test.
    cbn [toString raw]. unfold push. cbn [cmds set_cmds].
    rewrite _last_snoc. cbn [toString cmds set_cmds options spawnOptions].
    rewrite <- app_assoc. reflexivity.
  - reflexivity.
  - cbn [cmds set_cmds]. rewrite length_app. reflexivity.
Qed.

(** * Further properties of the code *)

(** ** Which options bags are accepted *)

Lemma hasOwnProperty_is_Some (opts : Bag) (k : string) :
  hasOwnProperty opts k = true <-> is_Some (opts !! k).
Proof. unfold hasOwnProperty. apply bool_decide_eq_true. Qed.

Lemma hasOwnProperty_false_None (opts : Bag) (k : string) :
  hasOwnProperty opts k = false <-> opts !! k = None.
Proof.
  unfold hasOwnProperty. rewrite bool_decide_eq_false.
  rewrite <- eq_None_not_Some. reflexivity.
Qed.

(** X1: [validateOptions] lets a bag through exactly when it has its own
    [host], [username] and [password] properties and its [protocol], if it
    has one, is the string [ftp], [sftp] or [ftps]. The values of the three
    required properties are not looked at, and [requiresPassword] plays no
    part. *)
Theorem validateOptions_accepts_iff (opts : Bag) :
  validateOptions opts = None
  <-> is_Some (opts !! "host")
      /\ is_Some (opts !! "username")
      /\ is_Some (opts !! "password")
      /\ (opts !! "protocol" = None
          \/ exists p, opts !! "protocol" = Some (VStr p)
                       /\ p ∈ acceptableProtocols).
Proof.
  split.
  - intros Hv. pose proof (validated_protocol opts Hv) as Hp.
    unfold validateOptions in Hv.
    destruct (hasOwnProperty opts "host") eqn:Hh; [|discriminate].
    destruct (hasOwnProperty opts "username") eqn:Hu; [|discriminate].
    cbn [negb] in Hv. rewrite or_else_truthy in Hv by reflexivity.
    destruct (hasOwnProperty opts "password") eqn:Hpw; [|discriminate].
    apply hasOwnProperty_is_Some in Hh, Hu, Hpw.
    repeat split; try assumption.
    destruct (opts !! "protocol") as [v|]; [|left; reflexivity].
    right. destruct Hp as (p & -> & Hin). exists p. split; [reflexivity|exact Hin].
  - intros (Hh & Hu & Hpw & Hp).
    apply hasOwnProperty_is_Some in Hh, Hu, Hpw.
    unfold validateOptions. rewrite Hh, Hu, Hpw. cbn [negb andb].
    rewrite andb_false_r.
    destruct Hp as [Hp|(p & Hp & Hin)].
    + rewrite (hasOwnProperty_None _ _ Hp). reflexivity.
    + rewrite (hasOwnProperty_Some _ _ _ Hp). unfold prop. rewrite Hp.
      cbn [from_option id _includes]. rewrite bool_decide_eq_true_2 by exact Hin.
      reflexivity.
Qed.

(** The checks are made in a fixed order: the first missing property names
    the error. *)
Lemma validateOptions_first_error (opts : Bag) :
  (opts !! "host" = None ->
   validateOptions opts = Some (lit "LFTP opts must include host"))
  /\ (is_Some (opts !! "host") -> opts !! "username" = None ->
      validateOptions opts = Some (lit "LFTP opts must include username")).
Proof.
  split.
  - intros H. unfold validateOptions. rewrite (hasOwnProperty_None _ _ H). reflexivity.
  - intros Hh Hu. apply hasOwnProperty_is_Some in Hh.
    unfold validateOptions. rewrite Hh, (hasOwnProperty_None _ _ Hu). reflexivity.
Qed.

(** X2: the constructor produces an instance exactly when [validateOptions]
    lets the bag through, and otherwise throws the [Error] carrying the
    message of [validateOptions]; lower-casing the protocol never throws a
    [TypeError], because a validated protocol is a string. *)
Theorem constructor_succeeds_iff_valid (opts : Bag) :
  ((exists this, constructor opts = inr this) <-> validateOptions opts = None)
  /\ (forall msg, validateOptions opts = Some msg ->
                  constructor opts = inl (Error msg))
  /\ constructor opts <> inl TypeError.
Proof.
  assert (Hok : validateOptions opts = None -> exists this, constructor opts = inr this).
  { intros Hv. pose proof (validated_protocol opts Hv) as Hp.
    unfold constructor. rewrite Hv. unfold prop.
    destruct (opts !! "protocol") as [v|].
    - destruct Hp as (p & -> & Hin).
      destruct (acceptable_protocol_lower p Hin) as [_ Ht].
      cbn [from_option id]. unfold or_else at 1. rewrite Ht. eexists. reflexivity.
    - cbn [from_option id]. unfold or_else at 1. cbn [truthy]. eexists. reflexivity. }
  repeat split.
  - intros [this Hc]. apply constructor_inr in Hc. apply Hc.
  - exact Hok.
  - intros msg Hv. unfold constructor. rewrite Hv. reflexivity.
  - destruct (validateOptions opts) as [msg|] eqn:Hv.
    + unfold constructor. rewrite Hv. discriminate.
    + destruct (Hok eq_refl) as [this ->]. discriminate.
Qed.

Lemma or_else_falsy (a b : Val) : truthy a = false -> or_else a b = b.
Proof. intros H. unfold or_else. rewrite H. reflexivity. Qed.

Lemma or_else_truthy_l (a b : Val) : truthy a = true -> or_else a b = a.
Proof. intros H. unfold or_else. rewrite H. reflexivity. Qed.

(** X3: a new instance has an empty queue, and its [retries], [timeout],
    [retryInterval] and [retryIntervalMultiplier] are never falsy: a
    supplied [0] (or any falsy value) is replaced by the default 1, 10, 5
    and 1, so a zero retry count or timeout cannot be configured, while a
    truthy value of each of the four options is kept. *)
Theorem constructor_numeric_options_never_falsy (opts : Bag) (this : LFTP) :
  constructor opts = inr this ->
  cmds this = []
  /\ truthy (retries (options this)) = true
  /\ truthy (timeout (options this)) = true
  /\ truthy (retryInterval (options this)) = true
  /\ truthy (retryIntervalMultiplier (options this)) = true
  /\ (truthy (prop opts "retries") = false -> retries (options this) = VNum 1)
  /\ (truthy (prop opts "timeout") = false -> timeout (options this) = VNum 10)
  /\ (truthy (prop opts "retryInterval") = false ->
      retryInterval (options this) = VNum 5)
  /\ (truthy (prop opts "retryIntervalMultiplier") = false ->
      retryIntervalMultiplier (options this) = VNum 1)
  /\ (truthy (prop opts "retries") = true ->
      retries (options this) = prop opts "retries")
  /\ (truthy (prop opts "timeout") = true ->
      timeout (options this) = prop opts "timeout")
  /\ (truthy (prop opts "retryInterval") = true ->
      retryInterval (options this) = prop opts "retryInterval")
  /\ (truthy (prop opts "retryIntervalMultiplier") = true ->
      retryIntervalMultiplier (options this)
      = prop opts "retryIntervalMultiplier").
Proof.
  intros Hc. apply constructor_inr in Hc.
  destruct Hc as (_ & p & _ & _ & _ & _ & _ & _ & Hr & Ht & Hri & Hrm & _ & Hq).
  rewrite Hr, Ht, Hri, Hrm.
  repeat split; try exact Hq;
    try (apply or_else_truthy; reflexivity);
    try (intros H; apply or_else_falsy; exact H);
    try (intros H; apply or_else_truthy_l; exact H).
Qed.

Definition optsZeroRetries : Bag :=
  {[ "host" := VStr (lit "host"); "username" := VStr (lit "username");
     "password" := VStr (lit "password"); "retries" := VNum 0;
     "timeout" := VNum 30 ]}.

Lemma constructor_numeric_options_never_falsy_witness :
  exists this,
    constructor optsZeroRetries = inr this
    /\ retries (options this) = VNum 1
    /\ timeout (options this) = VNum 30.
Proof.
  destruct (constructor optsZeroRetries) as [e|this] eqn:E;
    [vm_compute in E; discriminate E|].
  exists this. split; [reflexivity|].
  pose proof (constructor_numeric_options_never_falsy optsZeroRetries this E) as H.
  destruct H as (_ & _ & _ & _ & _ & Hr & _ & _ & _ & _ & Ht & _ & _).
  split; [apply Hr; reflexivity | rewrite Ht; reflexivity].
Defined.

(** ** More on the shell escaper *)

(** The number of code units of [s] that the escaper prefixes. *)
Definition count_escaped (s : jstring) : nat :=
  length (List.filter shell_class s).

Lemma escape_spec_length (s : jstring) :
  length (escape_spec s) = (length s + count_escaped s)%nat.
Proof.
  unfold count_escaped. induction s as [|c r IH]; [reflexivity|].
  cbn [escape_spec flat_map List.filter]. unfold escape_char at 1.
  rewrite length_app. fold (escape_spec r). rewrite IH.
  rewrite shell_class_needs_escape.
  destruct (needs_escape c); cbn [length]; lia.
Qed.

Lemma count_escaped_zero (s : jstring) :
  count_escaped s = 0%nat -> Forall (fun c => needs_escape c = false) s.
Proof.
  unfold count_escaped. induction s as [|c r IH]; [constructor|].
  cbn [List.filter]. rewrite shell_class_needs_escape.
  destruct (needs_escape c) eqn:E; [discriminate|].
  intros H. constructor; [exact E | exact (IH H)].
Qed.

(** X4: [escapeShell] returns a string unchanged exactly when the string
    holds none of the characters of the escaper's class; in particular
    strings of letters, digits, [/], [.] and [-] pass through as they
    are. *)
Theorem escapeShell_unchanged_iff_safe (s : jstring) :
  escapeShell (VStr s) = VStr s <-> Forall (fun c => shell_class c = false) s.
Proof.
  unfold escapeShell. cbn [is_string negb toString]. rewrite replace_class_escape.
  split.
  - intros H. injection H as H.
    assert (Hc : count_escaped s = 0%nat).
    { pose proof (escape_spec_length s) as Hl. rewrite H in Hl. lia. }
    apply count_escaped_zero in Hc.
    eapply Forall_impl; [exact Hc|]. intros c Hn. cbn beta in Hn.
    rewrite shell_class_needs_escape. exact Hn.
  - intros H. f_equal. apply escape_spec_safe.
    eapply Forall_impl; [exact H|]. intros c Hn. cbn beta in Hn.
    rewrite <- shell_class_needs_escape. exact Hn.
Qed.

(** X5: the escaper grows a string by one code unit for each character of
    its class, so the output is never shorter than the input. *)
Theorem escapeShell_length (s : jstring) :
  exists r,
    escapeShell (VStr s) = VStr r
    /\ length r = (length s + count_escaped s)%nat
    /\ (length s <= length r <= 2 * length s)%nat.
Proof.
  exists (escape_spec s). unfold escapeShell. cbn [is_string negb toString].
  rewrite replace_class_escape. split; [reflexivity|].
  pose proof (escape_spec_length s) as Hl. split; [exact Hl|].
  assert (count_escaped s <= length s)%nat.
  { unfold count_escaped. apply List.filter_length_le. }
  lia.
Qed.

(** X6: the escaper is injective on strings: two different strings never
    escape to the same text. *)
Theorem escapeShell_injective (s1 s2 : jstring) :
  escapeShell (VStr s1) = escapeShell (VStr s2) -> s1 = s2.
Proof.
  unfold escapeShell. cbn [is_string negb toString].
  rewrite !replace_class_escape. intros H. injection H as H.
  rewrite <- (unescape_escape s1), <- (unescape_escape s2), H. reflexivity.
Qed.

Lemma escapeShell_injective_witness :
  escapeShell (VStr (lit "a b")) = escapeShell (VStr (lit "a b"))
  /\ lit "a b" = lit "a b".
Proof.
  split; [reflexivity|].
  apply (escapeShell_injective (lit "a b") (lit "a b")). reflexivity.
Defined.

(** A text is well escaped when every backslash is followed by a character
    of the class, which it makes literal, and no character of the class
    stands without a backslash before it. *)
Fixpoint well_escaped (s : jstring) : bool :=
  match s with
  | [] => true
  | c :: r =>
      if (c =? backslash)%N then
        match r with
        | [] => false
        | d :: r' => shell_class d && well_escaped r'
        end
      else negb (shell_class c) && well_escaped r
  end.

(** X7: the output of the escaper is well escaped: it never leaves a
    quote, whitespace, dollar, backtick, bracket or backslash of the input
    bare, and never puts a backslash before any other character. *)
Theorem escapeShell_output_well_escaped (s : jstring) :
  exists r, escapeShell (VStr s) = VStr r /\ well_escaped r = true.
Proof.
  exists (escape_spec s). unfold escapeShell. cbn [is_string negb toString].
  rewrite replace_class_escape. split; [reflexivity|].
  induction s as [|c r IH]; [reflexivity|].
  cbn [escape_spec flat_map]. unfold escape_char at 1. fold (escape_spec r).
  destruct (needs_escape c) eqn:Hn.
  - cbn [app well_escaped]. rewrite N.eqb_refl, shell_class_needs_escape, Hn, IH.
    reflexivity.
  - cbn [app well_escaped].
    destruct (N.eqb_spec c backslash) as [->|_]; [discriminate Hn|].
    rewrite shell_class_needs_escape, Hn, IH. reflexivity.
Qed.

(** Escaping twice is not escaping once: the backslashes of the first pass
    are escaped by the second. *)
Lemma escapeShell_not_idempotent :
  escapeShell (escapeShell (VStr (lit "a b"))) <> escapeShell (VStr (lit "a b")).
Proof. vm_compute. discriminate. Qed.

(** ** More on the executor *)

Lemma join_snoc (sep : jstring) (l : list Val) (x : Val) :
  l <> [] -> join sep (l ++ [x]) = join sep l ++ sep ++ join_elem x.
Proof. intros H. rewrite join_app; [reflexivity | exact H | discriminate]. Qed.

Lemma join_prefix (sep : jstring) (l1 l2 : list Val) :
  l1 <> [] -> join sep l1 `prefix_of` join sep (l1 ++ l2).
Proof.
  intros H1. destruct l2 as [|y l2].
  - rewrite app_nil_r. reflexivity.
  - rewrite join_app; [|exact H1|discriminate]. apply prefix_app_r. reflexivity.
Qed.

(** The array [exec] joins, before the queue is added. *)
Definition with_extra (this : LFTP) (extraCmds : Val) : list Val :=
  match extraCmds with
  | VStr _ => baseCmd this ++ [extraCmds]
  | VArr l => baseCmd this ++ l
  | _ => baseCmd this
  end.

Lemma exec_eq (this : LFTP) (extraCmds : Val) :
  exec this extraCmds
  = (join (lit ";") (with_extra this extraCmds ++ map VStr (cmds this)),
     set_cmds this []).
Proof. destruct extraCmds; reflexivity. Qed.

(** X8: whatever is passed as extra commands, [exec] empties the queue,
    leaves the options and the spawn options alone, and builds a command
    string that starts with the joined preamble; a second [exec] with no
    argument then builds the preamble alone. *)
Theorem exec_always_drains_and_starts_with_preamble (this : LFTP) (extraCmds : Val) :
  cmds (snd (exec this extraCmds)) = []
  /\ options (snd (exec this extraCmds)) = options this
  /\ spawnOptions (snd (exec this extraCmds)) = spawnOptions this
  /\ join (lit ";") (baseCmd this) `prefix_of` fst (exec this extraCmds)
  /\ fst (exec (snd (exec this extraCmds)) VUndef) = join (lit ";") (baseCmd this).
Proof.
  rewrite !exec_eq. cbn [fst snd]. repeat split.
  - assert (H : exists l, with_extra this extraCmds ++ map VStr (cmds this)
                          = baseCmd this ++ l).
    { destruct extraCmds; cbn [with_extra];
        try (eexists; reflexivity); rewrite <- app_assoc; eexists; reflexivity. }
    destruct H as [l ->]. apply join_prefix, baseCmd_not_nil.
  - cbn [with_extra cmds set_cmds map]. rewrite baseCmd_set_cmds.
    apply join_app_nil_r.
Qed.

(** X9: a string passed to [exec] goes between the preamble and the queued
    commands, the elements of an array go there in their order, and a
    value that is neither a string nor an array is ignored without an
    error. *)
Theorem exec_extra_commands_between_preamble_and_queue (this : LFTP) :
  (forall e : jstring,
      fst (exec this (VStr e))
      = join (lit ";") (baseCmd this) ++ lit ";" ++ e
        ++ match cmds this with
           | [] => []
           | _ => lit ";" ++ join (lit ";") (map VStr (cmds this))
           end)
  /\ (forall l : list Val,
         fst (exec this (VArr l))
         = join (lit ";") (baseCmd this ++ l ++ map VStr (cmds this)))
  /\ (forall v : Val,
         match v with VStr _ | VArr _ => True | _ => exec this v = exec this VUndef end).
Proof.
  repeat split.
  - intros e. rewrite exec_eq. cbn [fst with_extra].
    destruct (cmds this) as [|c q] eqn:Eq.
    + cbn [map]. rewrite app_nil_r.
      rewrite join_snoc by apply baseCmd_not_nil. cbn [join_elem toString].
      rewrite app_nil_r. reflexivity.
    + rewrite join_app; [| |discriminate].
      * rewrite join_snoc by apply baseCmd_not_nil. cbn [join_elem toString].
        rewrite <- !app_assoc. reflexivity.
      * intros H. apply app_eq_nil in H. destruct H as [_ H]. discriminate H.
  - intros l. rewrite exec_eq. cbn [fst with_extra]. rewrite <- app_assoc. reflexivity.
  - intros v. destruct v; try exact I; reflexivity.
Qed.

(** ** The builders and the queue *)

(** The instance a call leaves behind, whether it returned or threw. *)
Definition after (r : Result) : LFTP :=
  match r with
  | Returned _ this' => this'
  | Thrown _ this' => this'
  end.

(** The call queued exactly one entry and changed nothing else, or threw
    the [Error] of [fail] and changed nothing. *)
Definition queues_one (this : LFTP) (r : Result) : Prop :=
  match r with
  | Returned _ this' => exists e, this' = set_cmds this (cmds this ++ [e])
  | Thrown (Error _) this' => this' = this
  | Thrown TypeError _ => False
  end.

Lemma queues_one_raw_string (this : LFTP) (s : jstring) :
  queues_one this (raw this (VStr s)).
Proof. exists s. reflexivity. Qed.

Lemma queues_one_raw_join (this : LFTP) (cmd : list Val) :
  queues_one this (raw_join this cmd).
Proof. apply queues_one_raw_string. Qed.

Lemma queues_one_fail (this : LFTP) (msg : jstring) : queues_one this (fail this msg).
Proof. reflexivity. Qed.

Lemma queues_one_finish (this : LFTP) (r : jstring + list Val) :
  queues_one this (finish this r).
Proof. destruct r; [apply queues_one_fail | apply queues_one_raw_join]. Qed.

Create HintDb queue.
#[local] Hint Resolve queues_one_raw_string queues_one_raw_join queues_one_fail
  queues_one_finish : queue.

Ltac queue_cases :=
  repeat first
    [ solve [auto with queue]
    | progress cbv zeta
    | case_match ].

Lemma queues_one_exit (this : LFTP) (subCmd : Val) (opts : Bag) :
  queues_one this (exit this subCmd opts).
Proof.
  unfold exit. cbv zeta.
  match goal with
  | |- context [match ?s with inl _ => _ | inr _ => _ end] =>
      destruct s as [msg|cmd]
  end; [reflexivity|].
  unfold raw_join, raw. eexists. reflexivity.
Qed.

(** Every builder other than [raw] and [command] queues exactly one entry
    when it returns. *)
Lemma run_queues_one parseNumber (this : LFTP) (c : Call) (r : Result) :
  run parseNumber this c = Some r ->
  (forall cmd, c <> Raw cmd) ->
  (forall cmd args, c <> Command cmd args) ->
  queues_one this r.
Proof.
  intros Hr Hraw Hc. unfold run in Hr.
  destruct c; cbn [run_with] in Hr;
    try (exfalso; eapply Hraw; reflexivity);
    try (exfalso; eapply Hc; reflexivity);
    injection Hr as Hr; subst r;
    try apply queues_one_exit;
    unfold alias, at_, attach, bookmark, cache, cat, cd, chmod, close, cls,
      debug, echo, edit, eval, find, get, get1, glob, help, jobs, kill, lcd,
      ln, local, lpwd, ls, pwd, put, mv, rm, rmdir, mirror, pget;
    queue_cases.
Qed.

(** X10: a builder other than [raw] and [command] that returns has added
    exactly one entry at the end of the queue, whatever its arguments, and
    has changed nothing else of the instance. *)
Theorem builder_queues_exactly_one parseNumber (this this' : LFTP) (c : Call)
    (ret : Ret) :
  run parseNumber this c = Some (Returned ret this') ->
  (forall cmd, c <> Raw cmd) ->
  (forall cmd args, c <> Command cmd args) ->
  exists e,
    cmds this' = cmds this ++ [e]
    /\ length (cmds this') = S (length (cmds this))
    /\ options this' = options this
    /\ spawnOptions this' = spawnOptions this.
Proof.
  intros Hr Hraw Hc. apply run_queues_one in Hr; [|exact Hraw|exact Hc].
  destruct Hr as [e ->]. exists e. cbn [cmds set_cmds options spawnOptions].
  repeat split. rewrite length_app. cbn [length]. lia.
Qed.

Lemma builder_queues_exactly_one_witness :
  exists e,
    cmds (set_cmds testInstance [lit "ls"]) = cmds testInstance ++ [e].
Proof.
  destruct (builder_queues_exactly_one (fun _ => None) testInstance
              (set_cmds testInstance [lit "ls"]) Ls RetThis)
    as (e & He & _); [reflexivity | discriminate | discriminate |].
  exists e. exact He.
Defined.

(** X11: a call of a builder, and a call of [command] whose [cmd] names
    one of the builders or [raw], never removes or reorders what is queued
    and never touches the options: after the call, returned or thrown, the
    queue is the old queue followed by at most two new entries. ([command]
    on any other method name, for instance [exec], is not a call of the
    table: [run] is undefined there and the statement does not cover it.) *)
Theorem run_queue_is_append_only parseNumber (this : LFTP) (c : Call) (r : Result) :
  run parseNumber this c = Some r ->
  options (after r) = options this
  /\ spawnOptions (after r) = spawnOptions this
  /\ exists added,
      cmds (after r) = cmds this ++ added /\ (length added <= 2)%nat.
Proof.
  intros Hr.
  assert (Hamo : forall t, appends_at_most_one this t ->
            options t = options this /\ spawnOptions t = spawnOptions this
            /\ exists added, cmds t = cmds this ++ added /\ (length added <= 1)%nat).
  { intros t (Ho & Hs & [Hq|[e Hq]]); repeat split; try assumption.
    - exists []. rewrite app_nil_r. split; [exact Hq | cbn; lia].
    - exists [e]. split; [exact Hq | cbn; lia]. }
  assert (Hsame : options this = options this /\ spawnOptions this = spawnOptions this
            /\ exists added, cmds this = cmds this ++ added /\ (length added <= 2)%nat).
  { repeat split. exists []. rewrite app_nil_r. split; [reflexivity | cbn; lia]. }
  assert (Hweak : forall t, appends_at_most_one this t ->
            options t = options this /\ spawnOptions t = spawnOptions this
            /\ exists added, cmds t = cmds this ++ added /\ (length added <= 2)%nat).
  { intros t Ht. destruct (Hamo t Ht) as (Ho & Hs & added & Hq & Hl).
    repeat split; try assumption. exists added. split; [exact Hq | lia]. }
  destruct (is_command_dec c) as [(a & b & ->)|Hnc].
  - unfold run in Hr. cbn [run_with] in Hr. unfold command_with, fail in Hr.
    destruct (negb (truthy a)); [injection Hr as Hr; subst r; exact Hsame|].
    destruct (negb (truthy b)); [injection Hr as Hr; subst r; exact Hsame|].
    destruct (invoke_inner parseNumber this (toString a) b) as [ri|] eqn:Ei;
      [|discriminate].
    apply invoke_inner_shape in Ei.
    destruct ri as [[|] t|[m|] t]; injection Hr as Hr; subst r; cbn [after].
    + cbn [raw after]. destruct (Hamo t Ei) as (Ho & Hs & added & Hq & Hl).
      cbn [set_cmds options spawnOptions cmds]. repeat split; try assumption.
      unfold push. rewrite Hq, <- app_assoc. eexists. split; [reflexivity|].
      rewrite length_app. cbn [length]. lia.
    + apply Hweak. exact Ei.
    + subst t. exact Hsame.
    + contradiction.
  - destruct (is_exit_dec c) as [(s & o & ->)|Hne].
    + unfold run in Hr. cbn [run_with] in Hr. injection Hr as Hr. subst r.
      pose proof (exit_shape this s o) as Hs.
      destruct (exit this s o) as [ret t|[m|] t]; cbn [after].
      * apply Hweak. apply Hs.
      * subst t. exact Hsame.
      * contradiction.
    + apply run_well_behaved in Hr; [|exact Hne|exact Hnc].
      destruct r as [ret t|[m|] t]; cbn [after well_behaved] in *.
      * apply Hweak. apply Hr.
      * subst t. exact Hsame.
      * contradiction.
Qed.

Lemma run_queue_is_append_only_witness :
  options (after (Returned RetThis (set_cmds testInstance [lit "pwd"])))
  = options testInstance.
Proof.
  exact (proj1 (run_queue_is_append_only (fun _ => None) testInstance Pwd
                  (Returned RetThis (set_cmds testInstance [lit "pwd"])) eq_refl)).
Defined.




Example echo_lcd_without_argument :
  queued (echo testInstance VUndef) = [lit "echo "]
  /\ queued (lcd testInstance VUndef) = [lit "lcd "]
  /\ queued (echo noEscapeInstance VUndef) = [lit "echo undefined"].
Proof. vm_compute. repeat split; reflexivity. Qed.

(** ** [command] and the builder it delegates to *)

(** X13: when [cmd] names a builder that returns the instance with the
    entry [e] queued, [command(cmd, args)] returns the instance with two
    entries queued, [e] and then [command e]: the delegated entry stays in
    the queue in front of the wrapped one. *)
Theorem command_keeps_delegated_entry parseNumber (this this1 : LFTP)
    (cmd args : Val) (c : Call) (e : jstring) :
  truthy cmd = true ->
  truthy args = true ->
  method_call (toString cmd) args = Some c ->
  run parseNumber this c = Some (Returned RetThis this1) ->
  cmds this1 = cmds this ++ [e] ->
  exists this2,
    command parseNumber this cmd args = Some (Returned RetThis this2)
    /\ cmds this2 = cmds this ++ [e; lit "command " ++ e]
    /\ options this2 = options this1.
Proof.
  intros Hc Ha Hm Hr Hq.
  assert (Hi : invoke_inner parseNumber this (toString cmd) args
               = Some (Returned RetThis this1)).
  { unfold invoke_inner. rewrite Hm.
    destruct (is_command_dec c) as [(a & b & ->)|Hnc].
    - apply method_call_command in Hm. subst b.
      destruct (inner_command_fails (invoke_inner parseNumber) this a) as [m Hf].
      unfold run in Hr. cbn [run_with] in Hr. rewrite Hf in Hr. discriminate Hr.
    - rewrite (run_with_invoke_irrelevant parseNumber _ (invoke_inner parseNumber))
        by exact Hnc.
      exact Hr. }
  unfold command, command_with. rewrite Hc, Ha. cbn [negb]. rewrite Hi.
  rewrite Hq, _last_snoc. cbn [toString raw].
  eexists. split; [reflexivity|]. cbn [cmds set_cmds options]. unfold push.
  rewrite Hq, <- app_assoc. split; reflexivity.
Qed.

Lemma command_keeps_delegated_entry_witness :
  exists this2,
    command (fun _ => None) testInstance (VStr (lit "cat")) (VStr (lit "a b"))
    = Some (Returned RetThis this2)
    /\ cmds this2 = cmds testInstance ++ [lit "cat a\ b"; lit "command " ++ lit "cat a\ b"]
    /\ options this2 = options (set_cmds testInstance [lit "cat a\ b"]).
Proof.
  apply (command_keeps_delegated_entry (fun _ => None) testInstance
           (set_cmds testInstance [lit "cat a\ b"])
           (VStr (lit "cat")) (VStr (lit "a b")) (Cat (VStr (lit "a b"))));
    reflexivity.
Defined.

(** X14: [command] never succeeds on [exit] or on itself: delegating to
    [exit] ends in a [TypeError] after [exit] has queued its entry, and
    delegating to [command] fails on the missing second argument with the
    queue untouched. *)
Theorem command_on_exit_or_command parseNumber (this : LFTP) (args : Val) :
  truthy args = true ->
  command parseNumber this (VStr (lit "command")) args
  = Some (Thrown (Error (lit "command() requires args argument")) this)
  /\ (forall t, exit this args ∅ = Returned RetUndefined t ->
        command parseNumber this (VStr (lit "exit")) args
        = Some (Thrown TypeError t))
  /\ (forall ret t,
        command parseNumber this (VStr (lit "exit")) args
        <> Some (Returned ret t)).
Proof.
  intros Ha.
  assert (He : invoke_inner parseNumber this (lit "exit") args
               = Some (exit this args ∅)) by reflexivity.
  assert (Hc : invoke_inner parseNumber this (lit "command") args
               = Some (Thrown (Error (lit "command() requires args argument")) this)).
  { unfold invoke_inner.
    change (method_call (lit "command") args) with (Some (Command args VUndef)).
    cbn [run_with]. unfold command_with. rewrite Ha. reflexivity. }
  unfold command, command_with.
  change (negb (truthy (VStr (lit "command")))) with false.
  change (negb (truthy (VStr (lit "exit")))) with false.
  rewrite Ha. cbn [negb toString]. rewrite He, Hc.
  repeat split.
  - intros t Ht. rewrite Ht. reflexivity.
  - intros ret t. pose proof (exit_shape this args ∅) as Hs.
    destruct (exit this args ∅) as [[|] t'|e t']; try discriminate.
    destruct Hs as [Hs _]. discriminate Hs.
Qed.

Lemma command_on_exit_or_command_witness :
  command (fun _ => None) testInstance (VStr (lit "command")) (VStr (lit "ls"))
  = Some (Thrown (Error (lit "command() requires args argument")) testInstance).
Proof.
  exact (proj1 (command_on_exit_or_command (fun _ => None) testInstance
                  (VStr (lit "ls")) eq_refl)).
Defined.

(** ** Builders followed by [exec] *)

Lemma baseCmd_options (this this' : LFTP) :
  options this' = options this -> baseCmd this' = baseCmd this.
Proof. intros H. unfold baseCmd, _escapeShell. rewrite H. reflexivity. Qed.

Lemma map_VStr_not_nil (q : list jstring) (e : jstring) :
  map VStr (q ++ [e]) = map VStr q ++ [VStr e].
Proof. apply map_app. Qed.

(** X15: queuing one more command extends the command string of the next
    [exec()] by [;] and that command: what was queued before keeps its
    place and the new command runs last. *)
Theorem exec_after_builder_appends_entry parseNumber (this this' : LFTP)
    (c : Call) (ret : Ret) :
  run parseNumber this c = Some (Returned ret this') ->
  (forall cmd, c <> Raw cmd) ->
  (forall cmd args, c <> Command cmd args) ->
  exists e,
    cmds this' = cmds this ++ [e]
    /\ fst (exec this' VUndef) = fst (exec this VUndef) ++ lit ";" ++ e.
Proof.
  intros Hr Hraw Hc.
  apply run_queues_one in Hr; [|exact Hraw|exact Hc].
  destruct Hr as [e ->]. exists e. split; [reflexivity|].
  rewrite !exec_no_extra. cbn [fst]. rewrite baseCmd_set_cmds.
  cbn [cmds set_cmds].
  rewrite map_app, app_assoc. cbn [map].
  rewrite join_snoc; [reflexivity|].
  intros H. apply app_eq_nil in H. destruct H as [H _].
  exact (baseCmd_not_nil this H).
Qed.

Lemma exec_after_builder_appends_entry_witness :
  exists e,
    cmds (set_cmds testInstance [lit "pwd"]) = cmds testInstance ++ [e]
    /\ fst (exec (set_cmds testInstance [lit "pwd"]) VUndef)
       = fst (exec testInstance VUndef) ++ lit ";" ++ e.
Proof.
  apply (exec_after_builder_appends_entry (fun _ => None) testInstance
           (set_cmds testInstance [lit "pwd"]) Pwd RetThis);
    [reflexivity | discriminate | discriminate].
Defined.

(** ** When single builders fail *)

Lemma str_is_true (v : Val) (s : string) : str_is v s = true <-> v = VStr (lit s).
Proof.
  destruct v; cbn [str_is]; try (split; [discriminate|discriminate]).
  unfold jstring_eqb. rewrite bool_decide_eq_true. split; [intros ->|intros H]; congruence.
Qed.

Lemma str_is_false (v : Val) (s : string) : str_is v s = false <-> v <> VStr (lit s).
Proof.
  rewrite <- str_is_true. destruct (str_is v s); split; congruence.
Qed.

(** X16: [debug] throws exactly when the level is falsy or is a string
    other than [off]. The level [0], a falsy number, is therefore refused
    as a missing argument, while every other number and [off] pass. *)
Theorem debug_throws_iff (this : LFTP) (level : Val) (opts : Bag) :
  ((exists msg, debug this level opts = Thrown (Error msg) this)
   <-> truthy level = false
       \/ (is_string level = true /\ level <> VStr (lit "off")))
  /\ debug this (VNum 0) opts
     = Thrown (Error (lit "debug() requires level argument")) this.
Proof.
  split; [|reflexivity]. unfold debug, fail. split.
  - intros [msg H]. destruct (truthy level) eqn:Ht; [|left; reflexivity].
    right. cbn [negb] in H.
    destruct (is_string level) eqn:Hs; [|discriminate H].
    destruct (str_is level "off") eqn:Ho; [discriminate H|].
    split; [reflexivity|]. apply str_is_false. exact Ho.
  - intros [Ht|[Hs Hn]].
    + rewrite Ht. eexists. reflexivity.
    + destruct (truthy level); cbn [negb]; [|eexists; reflexivity].
      apply str_is_false in Hn. rewrite Hs, Hn. eexists. reflexivity.
Qed.

(** X17: [edit] queues a command exactly when the file is a non-empty
    string; it throws for every other value, numbers included. *)
Theorem edit_returns_iff_nonempty_string (this : LFTP) (file : Val) (opts : Bag) :
  (exists this', edit this file opts = Returned RetThis this')
  <-> exists c s, file = VStr (c :: s).
Proof.
  unfold edit, fail, raw_join, raw. split.
  - intros [t H]. destruct file as [| | | |s| |]; try (cbn in H; discriminate H).
    + destruct b; discriminate H.
    + destruct (negb (truthy (VNum z))); discriminate H.
    + destruct s as [|c s]; [discriminate H|]. eauto.
  - intros (c & s & ->). eexists. reflexivity.
Qed.

Definition exitSubCmds : list jstring :=
  [lit "bg"; lit "top"; lit "parent"; lit "kill"].

(** X18: [exit] queues a command exactly when the subcommand is one of the
    strings [bg], [top], [parent], [kill]; the entry is [exit], the
    subcommand and, when the options have a [code], that code. *)
Theorem exit_queues_iff_recognized (this : LFTP) (subCmd : Val) (opts : Bag) :
  ((exists this', exit this subCmd opts = Returned RetUndefined this')
   <-> exists s, subCmd = VStr s /\ s ∈ exitSubCmds)
  /\ (forall s, s ∈ exitSubCmds ->
        exit this (VStr s) opts
        = Returned RetUndefined
            (set_cmds this
               (cmds this
                ++ [lit "exit " ++ s
                    ++ match opts !! "code" with
                       | Some code => lit " " ++ join_elem code
                       | None => []
                       end]))).
Proof.
  assert (Hrec : forall s, s ∈ exitSubCmds ->
            exit this (VStr s) opts
            = Returned RetUndefined
                (set_cmds this
                   (cmds this
                    ++ [lit "exit " ++ s
                        ++ match opts !! "code" with
                           | Some code => lit " " ++ join_elem code
                           | None => []
                           end]))).
  { intros s Hs. unfold exitSubCmds in Hs.
    rewrite !elem_of_cons, elem_of_nil in Hs.
    unfold hasOwnProperty, prop.
    destruct Hs as [-> | [-> | [-> | [-> | [] ] ] ] ];
      unfold exit, hasOwnProperty, prop;
      destruct (opts !! "code") as [code|]; reflexivity. }
  split; [|exact Hrec]. split.
  - intros [t H]. unfold exit, fail in H. cbv zeta in H.
    destruct (str_is subCmd "bg") eqn:E1;
      [apply str_is_true in E1; subst; eexists; split; [reflexivity|];
       unfold exitSubCmds; rewrite !elem_of_cons; tauto|].
    destruct (str_is subCmd "top") eqn:E2;
      [apply str_is_true in E2; subst; eexists; split; [reflexivity|];
       unfold exitSubCmds; rewrite !elem_of_cons; tauto|].
    destruct (str_is subCmd "parent") eqn:E3;
      [apply str_is_true in E3; subst; eexists; split; [reflexivity|];
       unfold exitSubCmds; rewrite !elem_of_cons; tauto|].
    destruct (str_is subCmd "kill") eqn:E4;
      [apply str_is_true in E4; subst; eexists; split; [reflexivity|];
       unfold exitSubCmds; rewrite !elem_of_cons; tauto|].
    discriminate H.
  - intros (s & -> & Hs). rewrite (Hrec s Hs). eexists. reflexivity.
Qed.

(** X19: [cache('expire', opts)] queues a command exactly when [opts] has
    its own [n] and a [unit] that is one of the strings [s], [m], [h],
    [d]; the entry is [cache expire] followed by [n] and the unit with no
    space between them. *)
Theorem cache_expire_returns_iff (this : LFTP) (opts : Bag) :
  ((exists this', cache this (VStr (lit "expire")) opts = Returned RetThis this')
   <-> is_Some (opts !! "n")
       /\ exists u, opts !! "unit" = Some (VStr u) /\ u ∈ acceptableUnits)
  /\ (forall n u, opts !! "n" = Some n -> opts !! "unit" = Some (VStr u) ->
        u ∈ acceptableUnits ->
        cache this (VStr (lit "expire")) opts
        = Returned RetThis
            (set_cmds this (cmds this ++ [lit "cache expire " ++ toString n ++ u]))).
Proof.
  assert (Hshape : cache this (VStr (lit "expire")) opts
            = finish this
                (if hasOwnProperty opts "n" && hasOwnProperty opts "unit"
                    && _includes acceptableUnits (prop opts "unit")
                 then inr (push [VStr (lit "cache")]
                             (VStr (lit "expire " ++ toString (prop opts "n")
                                    ++ toString (prop opts "unit"))))
                 else inl (lit "cache(expire) opts argument requires n and unit properties")))
    by reflexivity.
  rewrite Hshape. split; [split|].
  - intros [t H].
    destruct (hasOwnProperty opts "n") eqn:Hn; [|discriminate H].
    destruct (hasOwnProperty opts "unit") eqn:Hu; [|discriminate H].
    cbn [andb] in H.
    destruct (_includes acceptableUnits (prop opts "unit")) eqn:Hi; [|discriminate H].
    apply hasOwnProperty_is_Some in Hn. split; [exact Hn|].
    apply hasOwnProperty_true in Hu. destruct Hu as (v & Hv & Hp).
    rewrite Hp in Hi. destruct v; try discriminate Hi.
    exists s. split; [exact Hv|]. cbn [_includes] in Hi.
    apply bool_decide_eq_true in Hi. exact Hi.
  - intros (Hn & u & Hu & Hin). apply hasOwnProperty_is_Some in Hn.
    rewrite Hn, (hasOwnProperty_Some _ _ _ Hu). unfold prop at 1. rewrite Hu.
    cbn [from_option id _includes andb]. rewrite bool_decide_eq_true_2 by exact Hin.
    eexists. reflexivity.
  - intros n u Hn Hu Hin.
    rewrite (hasOwnProperty_Some _ _ _ Hn), (hasOwnProperty_Some _ _ _ Hu).
    unfold prop. rewrite Hn, Hu.
    cbn [from_option id _includes andb]. rewrite bool_decide_eq_true_2 by exact Hin.
    cbn [finish raw_join raw push app join join_elem toString].
    reflexivity.
Qed.

Lemma cache_expire_returns_iff_check :
  queued (cache testInstance (VStr (lit "expire"))
            {[ "n" := VNum 1; "unit" := VStr (lit "w") ]}) = [].
Proof. vm_compute. reflexivity. Qed.

(** X20: [glob] throws exactly when the patterns are falsy or none of
    [exist], [notExist] (truthy) and [command] (present) is given. When
    [exist] and [notExist] are both set, both flags are queued, each with
    the patterns. *)
Theorem glob_throws_iff (this : LFTP) (patterns : Val) (opts : Bag) :
  ((exists msg, glob this patterns opts = Thrown (Error msg) this)
   <-> truthy patterns = false
       \/ (truthy (prop opts "exist") = false
           /\ truthy (prop opts "notExist") = false
           /\ opts !! "command" = None))
  /\ (truthy patterns = true ->
      truthy (prop opts "exist") = true ->
      truthy (prop opts "notExist") = true ->
      truthy (prop opts "plainFiles") = false ->
      truthy (prop opts "directories") = false ->
      truthy (prop opts "allTypes") = false ->
      opts !! "command" = None ->
      glob this patterns opts
      = Returned RetThis
          (set_cmds this
             (cmds this
              ++ [lit "glob --exist " ++ toString (_escapeShell this patterns)
                  ++ lit " --not-exist " ++ toString (_escapeShell this patterns)]))).
Proof.
  split; [split|].
  - intros [msg H]. unfold glob, fail, raw_join in H.
    destruct (truthy patterns); [|left; reflexivity]. right. cbn [negb] in H.
    cbv zeta in H.
    destruct (truthy (prop opts "exist")), (truthy (prop opts "notExist")),
      (hasOwnProperty opts "command") eqn:Hc;
      cbn [andb negb] in H;
      try (destruct (raw this _) eqn:Hr in H;
           [discriminate H | cbn [raw] in Hr; discriminate Hr]);
      try (cbn [raw] in H; discriminate H).
    apply hasOwnProperty_false_None in Hc. repeat split. exact Hc.
  - intros [Hp|(He & Hn & Hc)]; unfold glob, fail.
    + rewrite Hp. eexists. reflexivity.
    + destruct (truthy patterns); [|eexists; reflexivity].
      cbn [negb]. cbv zeta. rewrite He, Hn, (hasOwnProperty_None _ _ Hc).
      eexists. reflexivity.
  - intros Hp He Hn Hf Hd Ha Hc. unfold glob.
    rewrite Hp, He, Hn, Hf, Hd, Ha, (hasOwnProperty_None _ _ Hc).
    cbn [negb andb push_if]. cbv zeta.
    cbn [raw_join push app join join_elem toString raw].
    rewrite <- !app_assoc. reflexivity.
Qed.

(** ** [mirror]: direction and failure *)

Lemma push_if_not_nil (b : bool) (l : list Val) (x : Val) :
  l <> [] -> push_if b l x <> [].
Proof.
  unfold push_if, push. destruct b; [|auto].
  intros _ H. apply app_eq_nil in H. destruct H as [_ H]. discriminate H.
Qed.

(** The two directories at the end of a [mirror] command. *)
Definition mirror_directories (this : LFTP) (remoteDir : Val) (opts : Bag)
  : jstring :=
  if truthy (prop opts "upload") then
    toString (_escapeShell this (prop opts "localDir")) ++ lit " "
    ++ toString (_escapeShell this remoteDir)
  else if truthy (prop opts "localDir") then
    toString (_escapeShell this remoteDir) ++ lit " "
    ++ toString (_escapeShell this (prop opts "localDir"))
  else toString (_escapeShell this remoteDir).

(** X21: [mirror] throws exactly when the remote directory is falsy or an
    upload is asked for without a local directory. Otherwise the queued
    entry ends with the directories, source first: local then remote for
    an upload, remote then local for a download, the remote one alone when
    no local directory is given. *)
Theorem mirror_directories_source_first (this : LFTP) (remoteDir : Val)
    (opts : Bag) :
  ((exists msg, mirror this remoteDir opts = Thrown (Error msg) this)
   <-> truthy remoteDir = false
       \/ (truthy (prop opts "upload") = true
           /\ truthy (prop opts "localDir") = false))
  /\ (truthy remoteDir = true ->
      (truthy (prop opts "upload") = true -> truthy (prop opts "localDir") = true) ->
      exists flags,
        mirror this remoteDir opts
        = Returned RetThis
            (set_cmds this
               (cmds this
                ++ [flags ++ lit " " ++ mirror_directories this remoteDir opts]))).
Proof.
  split; [split|].
  - intros [msg H]. unfold mirror, fail in H. cbv zeta in H.
    destruct (truthy remoteDir); [|left; reflexivity]. right. cbn [negb] in H.
    destruct (truthy (prop opts "upload")); [|discriminate H].
    destruct (truthy (prop opts "localDir")); [discriminate H|].
    split; reflexivity.
  - intros [Hr|[Hu Hl] ]; unfold mirror, fail; cbv zeta.
    + rewrite Hr. eexists. reflexivity.
    + destruct (truthy remoteDir); [|eexists; reflexivity].
      rewrite Hu, Hl. eexists. reflexivity.
  - intros Hr Hul. unfold mirror. cbv zeta. rewrite Hr. cbn [negb].
    assert (Hguard : truthy (prop opts "upload")
                     && negb (truthy (prop opts "localDir")) = false).
    { destruct (truthy (prop opts "upload")); [|reflexivity].
      rewrite Hul by reflexivity. reflexivity. }
    rewrite Hguard.
    match goal with
    | |- context [raw_join this (if _ then push ?L _ else _)] =>
        assert (Hl : L <> []);
        [ repeat apply push_if_not_nil;
          destruct (truthy (prop opts "queue")); discriminate
        | assert (Hc : exists l, l <> [] /\ l = L) by (exists L; auto) ]
    end.
    destruct Hc as (l & Hnil & Hc). rewrite <- Hc. clear Hl Hc.
    match goal with
    | |- context [raw_join this ?c] =>
        assert (Hc : c = l ++ [VStr (mirror_directories this remoteDir opts)])
    end.
    { unfold mirror_directories, push.
      destruct (truthy (prop opts "upload"));
        [|destruct (truthy (prop opts "localDir"))]; reflexivity. }
    rewrite Hc. clear Hc. rename Hnil into Hl.
    unfold raw_join. rewrite join_snoc by exact Hl. cbn [join_elem toString raw].
    eexists. reflexivity.
Qed.

Lemma mirror_directories_source_first_witness :
  exists flags,
    mirror testInstance (VStr (lit "remoteDir"))
      {[ "upload" := VBool true; "localDir" := VStr (lit "localDir") ]}
    = Returned RetThis
        (set_cmds testInstance
           (cmds testInstance
            ++ [flags ++ lit " " ++ lit "localDir remoteDir"])).
Proof.
  destruct (proj2 (mirror_directories_source_first testInstance
                     (VStr (lit "remoteDir"))
                     {[ "upload" := VBool true; "localDir" := VStr (lit "localDir") ]})
              eq_refl) as [flags H].
  - intros _. vm_compute. reflexivity.
  - assert (Hd : mirror_directories testInstance (VStr (lit "remoteDir"))
                   {[ "upload" := VBool true; "localDir" := VStr (lit "localDir") ]}
                 = lit "localDir remoteDir") by (vm_compute; reflexivity).
    rewrite Hd in H. exists flags. exact H.
Defined.

(** ** The order of the tokens of a queued command *)

Lemma join_push_if (sep : jstring) (b : bool) (l : list Val) (x : Val) :
  l <> [] ->
  join sep (push_if b l x) = join sep l ++ (if b then sep ++ join_elem x else []).
Proof.
  intros Hl. destruct b; cbn [push_if].
  - unfold push. apply join_snoc. exact Hl.
  - rewrite app_nil_r. reflexivity.
Qed.

Lemma push_not_nil (l : list Val) (x : Val) : push l x <> [].
Proof.
  unfold push. intros H. apply app_eq_nil in H. destruct H as [_ H]. discriminate H.
Qed.

Ltac not_nil :=
  repeat first [ apply push_if_not_nil | apply push_not_nil | discriminate ].

(** [s] when [b] holds, nothing otherwise. *)
Definition token_if (b : bool) (s : jstring) : jstring := if b then s else [].

(** X22: for a truthy remote path, [get] queues one entry made of [get],
    then the flags [-c], [-E], [-e], [-a] and [-O <base>] in this order,
    each only when its option is set, then the remote path, then
    [-o <localPath>] when given; the paths go through [_escapeShell]. *)
Theorem get_token_order (this : LFTP) (remotePath : Val) (opts : Bag) :
  truthy remotePath = true ->
  get this remotePath opts
  = Returned RetThis
      (set_cmds this
         (cmds this
          ++ [lit "get"
              ++ token_if (truthy (prop opts "continue")) (lit " -c")
              ++ token_if (truthy (prop opts "deleteSrcOnSuccess")) (lit " -E")
              ++ token_if (truthy (prop opts "deleteTargetBefore")) (lit " -e")
              ++ token_if (truthy (prop opts "asciiMode")) (lit " -a")
              ++ token_if (hasOwnProperty opts "base")
                   (lit " -O " ++ toString (_escapeShell this (prop opts "base")))
              ++ lit " " ++ join_elem (_escapeShell this remotePath)
              ++ token_if (hasOwnProperty opts "localPath")
                   (lit " -o "
                    ++ toString (_escapeShell this (prop opts "localPath")))])).
Proof.
  intros Hp. unfold get. rewrite Hp. cbn [negb]. cbv zeta.
  unfold raw_join, raw, push at 1.
  rewrite join_push_if by not_nil.
  unfold push at 1. rewrite join_snoc by not_nil.
  rewrite !join_push_if by not_nil.
  cbn [join join_elem toString]. unfold token_if.
  do 3 f_equal.
  destruct (truthy (prop opts "continue")),
    (truthy (prop opts "deleteSrcOnSuccess")),
    (truthy (prop opts "deleteTargetBefore")),
    (truthy (prop opts "asciiMode")),
    (hasOwnProperty opts "base"),
    (hasOwnProperty opts "localPath");
    rewrite <- ?app_assoc; rewrite ?app_nil_r; reflexivity.
Qed.

Lemma get_token_order_witness :
  get testInstance (VStr (lit "a b")) {[ "continue" := VBool true ]}
  = Returned RetThis (set_cmds testInstance [lit "get -c a\ b"]).
Proof.
  rewrite (get_token_order testInstance (VStr (lit "a b"))
             {[ "continue" := VBool true ]}) by reflexivity.
  vm_compute. reflexivity.
Defined.

Lemma _inRange_num parseNumber (n : Z) :
  _inRange parseNumber (VNum n) 1 4 = (1 <=? n) && (n <=? 3).
Proof.
  unfold _inRange. cbn [toNumber]. change (Z.min 1 4) with 1. change (Z.max 1 4) with 4.
  f_equal. destruct (Z.ltb_spec n 4), (Z.leb_spec n 3); try reflexivity; lia.
Qed.

Lemma _times_v parseNumber (n : Z) :
  (1 <=? n) && (n <=? 3) = true ->
  join [] (_times parseNumber (VNum n) (VStr (lit "v")))
  = replicate (Z.to_nat n) 118%N.
Proof.
  intros H. apply andb_true_iff in H. destruct H as [H1 H3].
  apply Z.leb_le in H1, H3.
  assert (Hn : n = 1 \/ n = 2 \/ n = 3) by lia.
  destruct Hn as [-> | [-> | ->] ]; reflexivity.
Qed.

(** X23: [jobs] with an integer [verbosity] queues [jobs], then [-v],
    [-vv] or [-vvv] when the verbosity is 1, 2 or 3 and no verbosity flag
    for any other integer (0, 4 and above, negatives), then [-r] when
    [notRecursive] is set, then the job number when given. (Fractional
    verbosities are not covered.) *)
Theorem jobs_verbosity_flag parseNumber (this : LFTP) (opts : Bag) (n : Z) :
  opts !! "verbosity" = Some (VNum n) ->
  jobs parseNumber this opts
  = Returned RetThis
      (set_cmds this
         (cmds this
          ++ [lit "jobs"
              ++ token_if ((1 <=? n) && (n <=? 3))
                   (lit " -" ++ replicate (Z.to_nat n) 118%N)
              ++ token_if (truthy (prop opts "notRecursive")) (lit " -r")
              ++ token_if (hasOwnProperty opts "jobNumber")
                   (lit " " ++ join_elem (prop opts "jobNumber"))])).
Proof.
  intros Hv. unfold jobs. cbv zeta.
  assert (Hp : prop opts "verbosity" = VNum n) by (unfold prop; rewrite Hv; reflexivity).
  rewrite (hasOwnProperty_Some _ _ _ Hv), !Hp.
  cbn [andb]. rewrite _inRange_num.
  unfold raw_join, raw, push.
  rewrite !join_push_if by not_nil.
  unfold token_if. do 3 f_equal.
  destruct ((1 <=? n) && (n <=? 3)) eqn:Hr.
  - rewrite (_times_v parseNumber n Hr). cbn [join join_elem toString].
    rewrite <- !app_assoc. reflexivity.
  - cbn [join join_elem toString]. rewrite <- !app_assoc. reflexivity.
Qed.

Lemma jobs_verbosity_flag_witness :
  jobs (fun _ => None) testInstance {[ "verbosity" := VNum 3 ]}
  = Returned RetThis (set_cmds testInstance [lit "jobs -vvv"]).
Proof.
  rewrite (jobs_verbosity_flag (fun _ => None) testInstance
             {[ "verbosity" := VNum 3 ]} 3) by reflexivity.
  vm_compute. reflexivity.
Defined.

(** X24: for a truthy remote path, [pget] queues [pget] (or [queue pget]
    when the [queue] option is set), then [-n] with the [n] option, which
    is 4 when [n] is absent or falsy, then the path, then [-o <localPath>]
    when a truthy local path is given. *)
Theorem pget_token_order (this : LFTP) (remotePath : Val) (opts : Bag) :
  truthy remotePath = true ->
  pget this remotePath opts
  = Returned RetThis
      (set_cmds this
         (cmds this
          ++ [(if truthy (prop opts "queue") then lit "queue pget" else lit "pget")
              ++ lit " -n "
              ++ toString (if truthy (prop opts "n") then prop opts "n" else VNum 4)
              ++ lit " " ++ toString (_escapeShell this remotePath)
              ++ token_if (truthy (prop opts "localPath"))
                   (lit " -o "
                    ++ toString (_escapeShell this (prop opts "localPath")))])).
Proof.
  intros Hp. unfold pget. rewrite Hp. cbn [negb]. cbv zeta.
  unfold raw_join, raw, push at 1.
  rewrite join_push_if by (not_nil; destruct (truthy (prop opts "queue")); discriminate).
  unfold push, or_else, token_if.
  destruct (truthy (prop opts "queue")), (truthy (prop opts "localPath"));
    cbn [app join join_elem toString]; rewrite <- ?app_assoc; rewrite ?app_nil_r;
    reflexivity.
Qed.

Lemma pget_token_order_witness :
  pget testInstance (VStr (lit "f")) {[ "n" := VNum 0; "queue" := VBool true ]}
  = Returned RetThis (set_cmds testInstance [lit "queue pget -n 4 f"]).
Proof.
  rewrite (pget_token_order testInstance (VStr (lit "f"))
             {[ "n" := VNum 0; "queue" := VBool true ]}) by reflexivity.
  vm_compute. reflexivity.
Defined.

(** ** Arguments that are not strings *)


